(** * linkedin_photo_prepare: a shallow embedding and its verified properties

    The script [scripts/linkedin_photo_prepare.py] keys out a red backdrop,
    composites the subject over a generated gradient, detects a face and draws
    a tie below it.  This file embeds the arithmetic and the data flow of each
    function and proves (or refutes) the properties the specification states.

    Python [int] is [Z].  Python [float] is IEEE-754 binary64 and NumPy
    [float32] is binary32; both are modelled bit-exactly by the executable
    specification [SpecFloat] of the standard library (round to nearest, ties
    to even).  Exceptions are values of [result].  Library routines whose
    pixels do not matter to any property (resampling, the OpenCV detector and
    filters, polygon rasterisation) are parameters. *)

From stdpp Require Import base option list gmap.
From Stdlib Require Import ZArith Lia Strings.String.
From Stdlib Require Import Floats.SpecFloat.

Local Open Scope Z_scope.

(** ** Exceptions *)

Inductive exn : Type :=
| ZeroDivisionError
| OverflowError
| ValueError
| TypeError.

Inductive result (A : Type) : Type :=
| Ok (a : A)
| Raise (e : exn).

Arguments Ok {A} a.
Arguments Raise {A} e.

#[global] Instance result_ret : MRet result := fun A a => Ok a.

#[global] Instance result_bind : MBind result :=
  fun A B f m => match m with Ok a => f a | Raise e => Raise e end.

#[global] Instance result_fmap : FMap result :=
  fun A B f m => match m with Ok a => Ok (f a) | Raise e => Raise e end.

(** [for x in xs: ...] where the body may raise. *)
Fixpoint mapM {A B : Type} (f : A -> result B) (xs : list A) : result (list B) :=
  match xs with
  | [] => Ok []
  | x :: xs' => y ← f x; ys ← mapM f xs'; Ok (y :: ys)
  end.

(** ** Python and NumPy numbers *)

Module Py.

(** A Python [float]: binary64. *)
Definition float : Type := spec_float.

Definition prec : Z := 53.
Definition emax : Z := 1024.

Definition mul : float -> float -> float := SFmul prec emax.
Definition div : float -> float -> float := SFdiv prec emax.
Definition add : float -> float -> float := SFadd prec emax.
Definition sub : float -> float -> float := SFsub prec emax.

(** The binary64 nearest to an integer. *)
Definition of_Z (n : Z) : float := binary_normalize prec emax n 0 false.

(** [float(n)]: integers beyond the binary64 range raise. *)
Definition float_of_int (n : Z) : result float :=
  match of_Z n with
  | S754_infinity _ => Raise OverflowError
  | x => Ok x
  end.

(** [int(x)]: truncation toward zero. *)
Definition int (x : float) : result Z :=
  match x with
  | S754_nan => Raise ValueError
  | S754_infinity _ => Raise OverflowError
  | S754_zero _ => Ok 0
  | S754_finite s m e =>
      Ok (cond_Zopp s (if 0 <=? e then Z.pos m * 2 ^ e else Z.pos m / 2 ^ (- e)))
  end.

(** A decimal literal [num/den] (such as [0.42] = 42/100) denotes the binary64
    nearest to it.  Both operands are exactly representable, and IEEE division
    is correctly rounded, so the quotient is that number. *)
Definition literal (num den : Z) : float := div (of_Z num) (of_Z den).

(** [n * x] and [n + x] for an int [n] and a float [x]: [n] is converted. *)
Definition int_mul_float (n : Z) (x : float) : result float :=
  y ← float_of_int n; Ok (mul y x).

Definition int_add_float (n : Z) (x : float) : result float :=
  y ← float_of_int n; Ok (add y x).

Definition int_sub_float (n : Z) (x : float) : result float :=
  y ← float_of_int n; Ok (sub y x).

(** [a / b] on ints (true division).  For operands below [2^53] in magnitude,
    which every image dimension is, CPython divides the two exact
    conversions. *)
Definition truediv (a b : Z) : result float :=
  if b =? 0 then Raise ZeroDivisionError
  else x ← float_of_int a; y ← float_of_int b; Ok (div x y).

(** [int(n * c)], the idiom of every proportional size in the script. *)
Definition int_scaled (n : Z) (c : float) : result Z :=
  x ← int_mul_float n c; int x.

(** Truthiness of an optional int: [None] and [0] are falsy. *)
Definition truthy (o : option Z) : bool :=
  match o with
  | Some n => negb (n =? 0)
  | None => false
  end.

End Py.

Module Np.

(** A NumPy [float32] scalar: binary32. *)
Definition float32 : Type := spec_float.

Definition prec : Z := 24.
Definition emax : Z := 128.

Definition mul : float32 -> float32 -> float32 := SFmul prec emax.
Definition div : float32 -> float32 -> float32 := SFdiv prec emax.
Definition add : float32 -> float32 -> float32 := SFadd prec emax.

(** [np.float32(n)] for an int. *)
Definition of_Z (n : Z) : float32 := binary_normalize prec emax n 0 false.

(** A Python float meeting a [float32] array is first rounded to [float32]. *)
Definition of_float (x : Py.float) : float32 :=
  match x with
  | S754_finite s m e => binary_round prec emax s m e
  | _ => x
  end.

(** [.astype(np.uint8)]: truncation toward zero; a value outside the byte
    range wraps modulo 256, and a non-finite one gives 0. *)
Definition to_uint8 (x : float32) : Z :=
  match x with
  | S754_finite s m e =>
      (cond_Zopp s (if 0 <=? e then Z.pos m * 2 ^ e else Z.pos m / 2 ^ (- e))) mod 256
  | _ => 0
  end.

(** Arithmetic on [np.int32] scalars wraps around. *)
Definition wrap32 (z : Z) : Z := (z + 2 ^ 31) mod 2 ^ 32 - 2 ^ 31.

Definition int32_mul (a b : Z) : Z := wrap32 (a * b).

End Np.

(** ** Images *)

Record RGB : Type := mkRGB { rgb_r : Z; rgb_g : Z; rgb_b : Z }.

Record RGBA : Type := mkRGBA { red : Z; green : Z; blue : Z; alpha : Z }.

Definition rgb_of (p : RGBA) : RGB := mkRGB (red p) (green p) (blue p).

Definition with_alpha (c : RGB) (a : Z) : RGBA := mkRGBA (rgb_r c) (rgb_g c) (rgb_b c) a.

(** A PIL image: its size [(width, height)] and its rows of pixels. *)
Record Image (P : Type) : Type := mkImage {
  im_size : Z * Z;
  im_rows : list (list P)
}.

Arguments mkImage {P} im_size im_rows.
Arguments im_size {P} i.
Arguments im_rows {P} i.

(** The pixel in column [x] of row [y]. *)
Definition pixel {P : Type} (im : Image P) (x y : nat) : option P :=
  row ← im_rows im !! y; row !! x.

(** Every channel of a pixel is a byte. *)
Definition byte (z : Z) : Prop := 0 <= z < 256.

Definition rgba_bytes (p : RGBA) : Prop :=
  byte (red p) /\ byte (green p) /\ byte (blue p) /\ byte (alpha p).

(** ** [FaceBox] *)

Record FaceBox : Type := mkFaceBox {
  fb_x : Z;
  fb_y : Z;
  fb_width : Z;
  fb_height : Z
}.

(** [FaceBox.center_bottom]:
    [(self.x + self.width // 2, int(self.y + self.height * 0.95))]. *)
Definition center_bottom (self : FaceBox) : result (Z * Z) :=
  let cx := fb_x self + fb_width self / 2 in
  s ← Py.int_mul_float (fb_height self) (Py.literal 95 100);
  t ← Py.int_add_float (fb_y self) s;
  cy ← Py.int t;
  Ok (cx, cy).

(** ** [generate_linkedin_gradient_background] *)

Definition Color : Type := RGB.

Definition default_top_color : Color := mkRGB 234 243 255.
Definition default_bottom_color : Color := mkRGB 191 215 255.

(** [np.array([*color, 255], dtype=np.float32)] *)
Definition color_array (c : Color) : list Np.float32 :=
  [Np.of_Z (rgb_r c); Np.of_Z (rgb_g c); Np.of_Z (rgb_b c); Np.of_Z 255].

(** [(1 - t) * top + t * bottom] on [float32] arrays, then [.astype(np.uint8)].
    The Python scalars [1 - t] and [t] are rounded to [float32] before they
    meet the arrays. *)
Definition blend_channel (one_minus_t t : Py.float) (top bottom : Np.float32) : Z :=
  Np.to_uint8 (Np.add (Np.mul (Np.of_float one_minus_t) top)
                      (Np.mul (Np.of_float t) bottom)).

Definition pixel_of_channels (cs : list Z) : RGBA :=
  match cs with
  | [r; g; b; a] => mkRGBA r g b a
  | _ => mkRGBA 0 0 0 0
  end.

(** The body of the loop over [row]: the colour of one row. *)
Definition gradient_row_color (height : Z) (top bottom : list Np.float32) (row : Z)
  : result RGBA :=
  t ← Py.truediv row (Z.max 1 (height - 1));
  one_minus_t ← Py.int_sub_float 1 t;
  Ok (pixel_of_channels (zip_with (blend_channel one_minus_t t) top bottom)).

Definition generate_linkedin_gradient_background
    (width height : Z) (top_color bottom_color : Color) : result (Image RGBA) :=
  if (width <? 0) || (height <? 0) then Raise ValueError   (* np.zeros *)
  else
    let top := color_array top_color in
    let bottom := color_array bottom_color in
    colors ← mapM (gradient_row_color height top bottom) (seqZ 0 height);
    (* gradient[row, :, :] = color *)
    Ok (mkImage (width, height) (map (fun c => replicate (Z.to_nat width) c) colors)).

(** ** OpenCV *)

(** The OpenCV routines the script calls and whose output no property below
    depends on.  Masks are arrays of bytes. *)
Class OpenCV : Type := {
  Kernel : Type;
  GrayImage : Type;
  cvtColor_BGR2HSV : list (list RGB) -> list (list (Z * Z * Z));
  cvtColor_RGB2GRAY : list (list RGB) -> GrayImage;
  getStructuringElement : string -> Z * Z -> Kernel;
  morphologyEx : list (list Z) -> string -> Kernel -> Z -> list (list Z);
  dilate : list (list Z) -> Kernel -> Z -> list (list Z);
  GaussianBlur : list (list Z) -> Z * Z -> Z -> list (list Z);
  (** [CascadeClassifier(path).detectMultiScale(gray, ...)]: rectangles
      [(x, y, w, h)] of [int32]. *)
  detectMultiScale :
    string -> GrayImage -> Py.float -> Z -> Z -> Z * Z -> list (Z * Z * Z * Z)
}.

(** [cv2.COLOR_RGB2BGR] swaps the outer channels. *)
Definition cvtColor_RGB2BGR (a : list (list RGB)) : list (list RGB) :=
  map (map (fun p => mkRGB (rgb_b p) (rgb_g p) (rgb_r p))) a.

(** [cv2.inRange]: 255 where every channel lies within its bounds, else 0. *)
Definition inRange (a : list (list (Z * Z * Z))) (lo hi : Z * Z * Z) : list (list Z) :=
  map (map (fun '(h, s, v) =>
              let '(lh, ls, lv) := lo in
              let '(hh, hs, hv) := hi in
              if (lh <=? h) && (h <=? hh) && (ls <=? s) && (s <=? hs)
                 && (lv <=? v) && (v <=? hv)
              then 255 else 0)) a.

Definition bitwise_or (a b : list (list Z)) : list (list Z) :=
  zip_with (zip_with Z.lor) a b.

Definition bitwise_not (a : list (list Z)) : list (list Z) :=
  map (map (fun m => Z.lxor m 255)) a.

(** ** [remove_background_keep_subject] *)

(** [(subj_mask.astype(np.float32) / 255.0)] then [(alpha * 255).astype(np.uint8)]
    on one mask byte. *)
Definition alpha_of_mask (m : Z) : Z :=
  let alpha := Np.div (Np.of_Z m) (Np.of_float (Py.literal 255 1)) in
  Np.to_uint8 (Np.mul alpha (Np.of_Z 255)).

(** [np.dstack] of the three colour planes of [rgb] and an alpha plane: the
    planes must have one shape. *)
Fixpoint dstack_row (rgb : list RGB) (a : list Z) : result (list RGBA) :=
  match rgb, a with
  | [], [] => Ok []
  | p :: rgb', x :: a' => r ← dstack_row rgb' a'; Ok (with_alpha p x :: r)
  | _, _ => Raise ValueError
  end.

Fixpoint dstack (rgb : list (list RGB)) (a : list (list Z)) : result (list (list RGBA)) :=
  match rgb, a with
  | [], [] => Ok []
  | r :: rgb', x :: a' => row ← dstack_row r x; rest ← dstack rgb' a'; Ok (row :: rest)
  | _, _ => Raise ValueError
  end.

(** The subject mask of lines 70-97: red keying, morphology, inversion and
    feathering.  [image] is [image.convert("RGB")]. *)
Definition subject_mask `{OpenCV} (rgb : Image RGB) : list (list Z) :=
  let bgr := cvtColor_RGB2BGR (im_rows rgb) in
  let hsv := cvtColor_BGR2HSV bgr in
  let mask1 := inRange hsv (0, 60, 40) (10, 255, 255) in
  let mask2 := inRange hsv (170, 60, 40) (180, 255, 255) in
  let red_bg_mask := bitwise_or mask1 mask2 in
  let kernel := getStructuringElement "MORPH_ELLIPSE" (7, 7) in
  let red_bg_mask := morphologyEx red_bg_mask "MORPH_CLOSE" kernel 2 in
  let red_bg_mask := morphologyEx red_bg_mask "MORPH_OPEN" kernel 1 in
  let border_kernel := getStructuringElement "MORPH_RECT" (25, 25) in
  let red_bg_mask := dilate red_bg_mask border_kernel 1 in
  let subj_mask := bitwise_not red_bg_mask in
  GaussianBlur subj_mask (9, 9) 0.

Definition remove_background_keep_subject `{OpenCV} (image : Image RGB)
  : result (Image RGBA) :=
  let rgb := image in
  let subj_mask := subject_mask rgb in
  let alpha := map (map alpha_of_mask) subj_mask in
  rgba ← dstack (im_rows rgb) alpha;
  Ok (mkImage (im_size rgb) rgba).

(** ** [detect_primary_face_bbox] *)

(** [max(faces, key=...)]: the first element whose key is not exceeded. *)
Fixpoint max_by {A : Type} (key : A -> Z) (best : A) (rest : list A) : A :=
  match rest with
  | [] => best
  | f :: rest' => if key best <? key f then max_by key f rest' else max_by key best rest'
  end.

(** [lambda f: f[2] * f[3]] on a row of [int32]. *)
Definition box_area_key (f : Z * Z * Z * Z) : Z :=
  let '(_, _, w, h) := f in Np.int32_mul w h.

Definition CASCADE_SCALE_IMAGE : Z := 2.

Definition min_face_size : Z * Z := (80, 80).

Definition detect_primary_face_bbox `{OpenCV} (image_rgb : Image RGB) : option FaceBox :=
  let gray := cvtColor_RGB2GRAY (im_rows image_rgb) in
  let faces :=
    detectMultiScale "haarcascade_frontalface_default.xml" gray
      (Py.literal 11 10) 5 CASCADE_SCALE_IMAGE min_face_size in
  match faces with
  | [] => None
  | f :: rest =>
      let '(x, y, w, h) := max_by box_area_key f rest in
      Some (mkFaceBox x y w h)
  end.

(** ** Pillow *)

(** The Pillow routines whose pixels no property below depends on:
    [Image.resize(size, Image.LANCZOS)] and [ImageDraw.polygon(xy, fill,
    outline)]. *)
Class Pillow : Type := {
  resize : Image RGBA -> Z * Z -> Image RGBA;
  polygon : Image RGBA -> list (Z * Z) -> option RGBA -> option RGBA -> Image RGBA
}.

(** Pillow divides by 255 with the rounding shift [((a >> 8) + a) >> 8]. *)
Definition shift_for_div255 (a : Z) : Z := Z.shiftr (Z.shiftr a 8 + a) 8.

(** One colour channel of the blend, with 7 extra bits of precision. *)
Definition over_channel (src dst coef1 coef2 : Z) : Z :=
  Z.shiftr (shift_for_div255 (src * coef1 + dst * coef2 + Z.shiftl 128 7)) 7 mod 256.

(** Modelled from the spec: the pixel arithmetic of [Image.alpha_composite],
    which belongs to Pillow and not to this repository.  The specification
    calls it standard alpha blending with the over-operator: the result colour
    is the source colour weighted by its alpha plus the destination colour
    weighted by what the source leaves of the destination's alpha, divided by
    the result alpha.  On 8-bit channels that is computed in integers: the
    source weighs [coef1 = 255 * src.a / out.a] (scaled by [2^7]), the
    destination the rest, and a fully transparent source pixel leaves the
    destination as it is. *)
Definition over (dst src : RGBA) : RGBA :=
  if alpha src =? 0 then dst
  else
    let blend := alpha dst * (255 - alpha src) in
    let outa255 := alpha src * 255 + blend in
    let coef1 := alpha src * 255 * 255 * Z.shiftl 1 7 / outa255 in
    let coef2 := 255 * Z.shiftl 1 7 - coef1 in
    mkRGBA (over_channel (red src) (red dst) coef1 coef2)
           (over_channel (green src) (green dst) coef1 coef2)
           (over_channel (blue src) (blue dst) coef1 coef2)
           (shift_for_div255 (outa255 + 128) mod 256).

(** Modelled from the spec: [Image.alpha_composite(dst, src)] of Pillow, the
    over-operator applied pixel by pixel; images of different sizes do not
    match and raise. *)
Definition alpha_composite (dst src : Image RGBA) : result (Image RGBA) :=
  if decide (im_size dst = im_size src)
  then Ok (mkImage (im_size dst) (zip_with (zip_with over) (im_rows dst) (im_rows src)))
  else Raise ValueError.

(** ** [compose_subject_on_background] *)

(** Lines 195-196: the subject as it enters the composite. *)
Definition reconcile_size `{Pillow} (subj bg : Image RGBA) : Image RGBA :=
  if decide (im_size subj <> im_size bg) then resize subj (im_size bg) else subj.

(** An RGBA image converts to a copy of itself, so [.copy().convert("RGBA")]
    keeps the value. *)
Definition compose_subject_on_background `{Pillow}
    (subject_rgba background_rgba : Image RGBA) : result (Image RGBA) :=
  let bg := background_rgba in
  let subj := subject_rgba in
  let subj := reconcile_size subj bg in
  alpha_composite bg subj.

(** ** [draw_tie]: geometry *)

Definition scale (n num den : Z) : result Z := Py.int_scaled n (Py.literal num den).

(** Lines 133-140: the anchor [(cx, cy)] and the face height. *)
Definition tie_anchor (w h : Z) (face_box : option FaceBox) : result (Z * Z * Z) :=
  match face_box with
  | None =>
      let cx := w / 2 in
      cy ← scale h 42 100;
      face_height ← scale h 22 100;
      Ok (cx, cy, face_height)
  | Some fb =>
      '(cx, cy) ← center_bottom fb;
      Ok (cx, cy, fb_height fb)
  end.

Record TieSizing : Type := mkTieSizing {
  knot_height : Z;
  knot_width : Z;
  tie_length : Z;
  tie_bottom_width : Z
}.

(** Lines 143-146. *)
Definition tie_sizing (h face_height : Z) : result TieSizing :=
  a ← scale face_height 12 100;
  let knot_height := Z.max 12 a in
  b ← scale face_height 16 100;
  let knot_width := Z.max 16 b in
  c ← scale h 20 100;
  d ← scale face_height 12 10;
  let tie_length := Z.max c d in
  e ← scale knot_width 16 10;
  let tie_bottom_width := Z.max 26 e in
  Ok (mkTieSizing knot_height knot_width tie_length tie_bottom_width).

Record Knot : Type := mkKnot {
  knot_top_y : Z;
  knot_bottom_y : Z;
  half_knot_w : Z;
  knot_points : list (Z * Z)
}.

(** Lines 154-163. *)
Definition knot_shape (cx cy face_height : Z) (sz : TieSizing) : result Knot :=
  a ← scale face_height 2 100;
  let knot_top_y := cy + a in
  let knot_bottom_y := knot_top_y + knot_height sz in
  let half_knot_w := knot_width sz / 2 in
  r ← scale half_knot_w 7 10;
  l ← scale half_knot_w 7 10;
  Ok (mkKnot knot_top_y knot_bottom_y half_knot_w
        [ (cx - half_knot_w, knot_top_y);
          (cx + half_knot_w, knot_top_y);
          (cx + r, knot_bottom_y);
          (cx - l, knot_bottom_y) ]).

Record Blade : Type := mkBlade {
  tip_y : Z;
  blade_half_top : Z;
  blade_half_bottom : Z;
  blade_points : list (Z * Z)
}.

(** Lines 167-177. *)
Definition blade_shape (cx h : Z) (sz : TieSizing) (k : Knot) : result Blade :=
  let tip_y := Z.min (h - 6) (knot_bottom_y k + tie_length sz) in
  blade_half_top ← scale (knot_width sz) 6 10;
  let blade_half_bottom := tie_bottom_width sz / 2 in
  r ← scale (tie_bottom_width sz) 4 10;
  l ← scale (tie_bottom_width sz) 4 10;
  Ok (mkBlade tip_y blade_half_top blade_half_bottom
        [ (cx - blade_half_top, knot_bottom_y k);
          (cx + blade_half_top, knot_bottom_y k);
          (cx + blade_half_bottom, tip_y - r);
          (cx, tip_y);
          (cx - blade_half_bottom, tip_y - l) ]).

(** Lines 181-186. *)
Definition highlight_shape (cx : Z) (sz : TieSizing) (k : Knot) (b : Blade)
  : result (list (Z * Z)) :=
  a ← scale (tie_bottom_width sz) 45 100;
  Ok [ (cx - blade_half_top b + 1, knot_bottom_y k + 2);
       (cx - blade_half_top b + 1, tip_y b - a);
       (cx - 2, tip_y b - 4);
       (cx - 2, knot_bottom_y k + 2) ].

(** Every local of [draw_tie], in the order the function computes them. *)
Record TieGeometry : Type := mkTieGeometry {
  tg_cx : Z;
  tg_cy : Z;
  tg_face_height : Z;
  tg_sizing : TieSizing;
  tg_knot : Knot;
  tg_blade : Blade;
  tg_highlight : list (Z * Z)
}.

Definition tie_geometry (w h : Z) (face_box : option FaceBox) : result TieGeometry :=
  '(cx, cy, face_height) ← tie_anchor w h face_box;
  sz ← tie_sizing h face_height;
  k ← knot_shape cx cy face_height sz;
  b ← blade_shape cx h sz k;
  hl ← highlight_shape cx sz k b;
  Ok (mkTieGeometry cx cy face_height sz k b hl).

Definition navy : RGBA := mkRGBA 10 42 102 255.
Definition navy_dark : RGBA := mkRGBA 6 26 64 255.
Definition highlight : RGBA := mkRGBA 255 255 255 60.

(** The three [draw.polygon] calls on an image. *)
Definition paint_tie `{Pillow} (im : Image RGBA) (g : TieGeometry) : Image RGBA :=
  let im := polygon im (knot_points (tg_knot g)) (Some navy) (Some navy_dark) in
  let im := polygon im (blade_points (tg_blade g)) (Some navy) (Some navy_dark) in
  polygon im (tg_highlight g) (Some highlight) None.

(** ** [draw_tie]: the image objects *)

(** Pillow images are mutable objects.  The store maps each object to its
    current value; a caller and a callee that hold the same reference see the
    same buffer. *)
Abbreviation ref := positive (only parsing).
Abbreviation heap := (gmap positive (Image RGBA)) (only parsing).

(** A computation that reads and updates the store and may raise. *)
Definition M (A : Type) : Type := heap -> result A * heap.

#[global] Instance M_ret : MRet M := fun A a s => (Ok a, s).

#[global] Instance M_bind : MBind M :=
  fun A B f m s =>
    match m s with
    | (Ok a, s') => f a s'
    | (Raise e, s') => (Raise e, s')
    end.

Definition lift {A : Type} (r : result A) : M A := fun s => (r, s).

(** [Image.copy()], and [Image.convert("RGBA")] of an RGBA image: a new object
    with the same pixels. *)
Definition image_copy (l : ref) : M ref :=
  fun s => match s !! l with
           | Some im => let l' := fresh (dom s) in (Ok l', <[l' := im]> s)
           | None => (Raise ValueError, s)
           end.

Definition image_convert_rgba (l : ref) : M ref := image_copy l.

(** [img.size] *)
Definition image_size (l : ref) : M (Z * Z) :=
  fun s => match s !! l with
           | Some im => (Ok (im_size im), s)
           | None => (Raise ValueError, s)
           end.

(** [ImageDraw.Draw(img).polygon(...)] draws into the buffer of [img]. *)
Definition draw_polygon `{Pillow} (l : ref) (xy : list (Z * Z))
    (fill outline : option RGBA) : M unit :=
  fun s => match s !! l with
           | Some im => (Ok tt, <[l := polygon im xy fill outline]> s)
           | None => (Raise ValueError, s)
           end.

(** Lines 130-189: the drawing on the working copy [img]. *)
Definition draw_tie_on `{Pillow} (img : ref) (face_box : option FaceBox) : M ref :=
  '(w, h) ← image_size img;
  '(cx, cy, face_height) ← lift (tie_anchor w h face_box);
  sz ← lift (tie_sizing h face_height);
  k ← lift (knot_shape cx cy face_height sz);
  _ ← draw_polygon img (knot_points k) (Some navy) (Some navy_dark);
  b ← lift (blade_shape cx h sz k);
  _ ← draw_polygon img (blade_points b) (Some navy) (Some navy_dark);
  hl ← lift (highlight_shape cx sz k b);
  _ ← draw_polygon img hl (Some highlight) None;
  mret img.

(** Line 129, [img = image_rgba.copy().convert("RGBA")], then the drawing. *)
Definition draw_tie `{Pillow} (image_rgba : ref) (face_box : option FaceBox) : M ref :=
  tmp ← image_copy image_rgba;
  img ← image_convert_rgba tmp;
  draw_tie_on img face_box.

(** ** [process]: the resize target *)

(** [int(base * (requested / other))] of lines 207-208; the operand
    [requested] is an argument that may be [None]. *)
Definition proportional (base : Z) (requested : option Z) (other : Z) : result Z :=
  match requested with
  | None => Raise TypeError
  | Some r =>
      ratio ← Py.truediv r other;
      x ← Py.int_mul_float base ratio;
      Py.int x
  end.

(** Lines 206-209 of [process]: the size handed to [resize], or [None] when
    no resize is requested.  [a or b] evaluates [b] only if [a] is falsy. *)
Definition resize_target (base_w base_h : Z) (width height : option Z)
  : result (option (Z * Z)) :=
  if Py.truthy width || Py.truthy height then
    target_w ← (if Py.truthy width then Ok (default 0 width)
                else proportional base_w height base_h);
    target_h ← (if Py.truthy height then Ok (default 0 height)
                else proportional base_h width base_w);
    Ok (Some (target_w, target_h))
  else Ok None.

(** ** [process]: the pipeline *)





(** ** Stand-ins for the libraries

    Instances used to run the functions on concrete inputs: a resampler that
    only adopts the requested size, and a rasteriser that marks the first
    vertex of a polygon with the fill colour. *)
Definition set_pixel (im : Image RGBA) (x y : Z) (c : RGBA) : Image RGBA :=
  mkImage (im_size im)
    (alter (fun row => <[Z.to_nat x := c]> row) (Z.to_nat y) (im_rows im)).

Definition simple_pillow : Pillow := {|
  resize := fun im size =>
    mkImage size (replicate (Z.to_nat size.2)
                    (replicate (Z.to_nat size.1) (mkRGBA 0 0 0 0)));
  polygon := fun im xy fill outline =>
    match xy, fill with
    | (x, y) :: _, Some c => set_pixel im x y c
    | _, _ => im
    end
|}.

(** An OpenCV stand-in: the detector reports the rectangles it is given, the
    colour conversion keeps the three bytes, and the filters keep the mask. *)
Definition simple_opencv (faces : list (Z * Z * Z * Z)) : OpenCV := {|
  Kernel := unit;
  GrayImage := unit;
  cvtColor_BGR2HSV := map (map (fun p => (rgb_r p, rgb_g p, rgb_b p)));
  cvtColor_RGB2GRAY := fun _ => tt;
  getStructuringElement := fun _ _ => tt;
  morphologyEx := fun m _ _ _ => m;
  dilate := fun m _ _ => m;
  GaussianBlur := fun m _ _ => m;
  detectMultiScale := fun _ _ _ _ _ _ => faces
|}.

(** ** Predicates used by the proofs *)

(** Where the discarded low part [R] of a mantissa sits inside a window of
    width [K]: the round and sticky flags of a shift record encode this. *)
Definition flags_spec (R K : Z) (r s : bool) : Prop :=
  match r, s with
  | false, false => R = 0
  | false, true => 0 < 2 * R < K
  | true, false => 2 * R = K
  | true, true => K < 2 * R < 2 * K
  end.

(** A sufficient, decidable condition for [int(n * c)] to be the floor of
    [p * n / q] for every [0 <= n < B], where [c = mc * 2^ec] is the binary64
    nearest to [p / q]: [delta] measures how far [c] lies below [p / q]. *)
Definition scale_exact_cond (mc : positive) (ec p q B : Z) : bool :=
  let G := 2 ^ (- ec) in
  let delta := p * G - q * Z.pos mc in
  (Z.pos (digits2_pos mc) =? 53) && (-1074 <=? ec) && (ec <=? 0)
  && (2 <=? q) && (0 <? B) && (B <=? 2 ^ 53)
  && ((delta <=? 0) || ((2 ^ 54 - 1) * delta <? q * Z.pos mc))
  && (q * B * Z.pos mc <? (2 ^ 53 - 1) * (G - B * Z.abs delta)).

(** A computation leaves the object at [l] as it found it. *)
Definition frames {A : Type} (l : ref) (m : M A) : Prop :=
  forall s, (m s).2 !! l = s !! l.

(** A detected rectangle whose area fits an [int32]. *)
Definition area_fits (f : Z * Z * Z * Z) : Prop :=
  let '(_, _, w, h) := f in 0 <= w /\ 0 <= h /\ w * h < 2 ^ 31.

Definition box_area (f : Z * Z * Z * Z) : Z :=
  let '(_, _, w, h) := f in w * h.

(** Two arrays have one shape. *)
Definition same_shape {A B : Type} (a : list (list A)) (b : list (list B)) : Prop :=
  map (@List.length A) a = map (@List.length B) b.

(** A colour given as three bytes. *)
Definition color_bytes (c : Color) : Prop :=
  byte (rgb_r c) /\ byte (rgb_g c) /\ byte (rgb_b c).

(** The values of one channel down the first column of an image. *)
Definition channel_column (ch : RGBA -> Z) (im : Image RGBA) : list Z :=
  flat_map (fun row => map ch (take 1 row)) (im_rows im).

(** A list of channel values that never increases, or never decreases. *)
Definition monotone (l : list Z) : Prop :=
  (forall (i j : nat) (a b : Z), (i <= j)%nat -> l !! i = Some a -> l !! j = Some b -> a <= b)
  \/ (forall (i j : nat) (a b : Z), (i <= j)%nat -> l !! i = Some a -> l !! j = Some b -> b <= a).

Definition is_pos_zero (x : spec_float) : bool :=
  match x with
  | S754_zero false => true
  | _ => false
  end.

(** The binary64 numbers 1.0 and 0.0. *)
Definition f64_one : Py.float := S754_finite false 4503599627370496 (-52).
Definition f64_zero : Py.float := S754_zero false.

(** As [scale_exact_cond], for a constant that may lie further below [p / q]:
    [int(n * c)] is then the floor of [p * n / q] or one less. *)
Definition scale_near_cond (mc : positive) (ec p q B : Z) : bool :=
  let G := 2 ^ (- ec) in
  let delta := p * G - q * Z.pos mc in
  (Z.pos (digits2_pos mc) =? 53) && (-1074 <=? ec) && (ec <=? 0)
  && (2 <=? q) && (0 <? B) && (B <=? 2 ^ 53)
  && (B * delta <=? q * G)
  && (q * B * Z.pos mc <? (2 ^ 53 - 1) * (G - B * Z.abs delta)).

(** A pixel that the two [inRange] calls of lines 77-78 key as red backdrop:
    hue near 0 or near 180, saturation from 60 and value from 40. *)
Definition red_keyed (p : Z * Z * Z) : bool :=
  let '(h, s, v) := p in
  (((0 <=? h) && (h <=? 10)) || ((170 <=? h) && (h <=? 180)))
  && ((60 <=? s) && (s <=? 255)) && ((40 <=? v) && (v <=? 255)).

(** A mask that holds one value everywhere. *)
Definition uniform (v : Z) (m : list (list Z)) : Prop :=
  Forall (Forall (fun x => x = v)) m.

(** The largest image dimension Pillow can hold (a C [int]). *)
Definition max_dim : Z := 2 ^ 31.

(** A face box whose top edge and height are non-negative image coordinates. *)
Definition face_in_range (face_box : option FaceBox) : Prop :=
  match face_box with
  | None => True
  | Some fb => 0 <= fb_y fb < max_dim /\ 0 <= fb_height fb < max_dim
  end.

(** * Properties *)

(** ** IEEE-754 rounding in [SpecFloat] *)

Lemma iter_pos_nat {A} (f : A -> A) (p : positive) (x : A) :
  iter_pos f p x = Nat.iter (Pos.to_nat p) f x.
Proof.
  revert x. induction p as [p IH|p IH|]; intros x; cbn [iter_pos].
  - rewrite !IH, Pos2Nat.inj_xI, <- Nat.iter_add, <- Nat.iter_succ_r.
    f_equal. lia.
  - rewrite !IH, Pos2Nat.inj_xO, <- Nat.iter_add. f_equal. lia.
  - reflexivity.
Qed.

Lemma shr_1_nonneg m r s :
  0 <= m -> shr_1 (Build_shr_record m r s) = Build_shr_record (m / 2) (Z.odd m) (r || s).
Proof.
  intros Hm. destruct m as [|p|p]; [reflexivity| |lia].
  destruct p as [p|p|]; cbn [shr_1].
  - replace (Z.pos p~1 / 2) with (Z.pos p)
      by (apply Z.div_unique with 1; lia).
    reflexivity.
  - replace (Z.pos p~0 / 2) with (Z.pos p)
      by (apply Z.div_unique with 0; lia).
    reflexivity.
  - reflexivity.
Qed.

Lemma shr_iter_spec (M : Z) (k : nat) :
  0 <= M ->
  exists r s,
    Nat.iter k shr_1 (Build_shr_record M false false)
      = Build_shr_record (M / 2 ^ Z.of_nat k) r s
    /\ flags_spec (M mod 2 ^ Z.of_nat k) (2 ^ Z.of_nat k) r s.
Proof.
  intros HM. induction k as [|k (r & s & Heq & Hfl)].
  - exists false, false. simpl. rewrite Z.div_1_r, Z.mod_1_r. split; reflexivity.
  - rewrite Nat.iter_succ, Heq.
    assert (Hk : 0 < 2 ^ Z.of_nat k) by (apply Z.pow_pos_nonneg; lia).
    rewrite shr_1_nonneg by (apply Z.div_pos; lia).
    exists (Z.odd (M / 2 ^ Z.of_nat k)), (r || s).
    rewrite Nat2Z.inj_succ, Z.pow_succ_r by lia.
    set (K := 2 ^ Z.of_nat k) in *.
    assert (Hdiv : M / (2 * K) = M / K / 2).
    { rewrite (Z.mul_comm 2 K). rewrite Z.div_div by lia. reflexivity. }
    split; [rewrite Hdiv; reflexivity|].
    assert (Hmod : M mod (2 * K) = K * (M / K mod 2) + M mod K).
    { rewrite (Z.mul_comm 2 K). rewrite Z.rem_mul_r by lia. lia. }
    rewrite Hmod.
    pose proof (Z.mod_pos_bound M K Hk) as HR.
    rewrite (Zmod_odd (M / K)).
    destruct (Z.odd (M / K)); destruct r, s; unfold flags_spec in *; simpl; lia.
Qed.

Lemma iter_pos_shr_spec (M : Z) (p : positive) :
  0 <= M ->
  exists r s,
    iter_pos shr_1 p (Build_shr_record M false false)
      = Build_shr_record (M / 2 ^ Z.pos p) r s
    /\ flags_spec (M mod 2 ^ Z.pos p) (2 ^ Z.pos p) r s.
Proof.
  intros HM. rewrite iter_pos_nat.
  destruct (shr_iter_spec M (Pos.to_nat p) HM) as (r & s & Heq & Hfl).
  rewrite positive_nat_Z in *. eauto.
Qed.

Lemma round_nearest_even_spec (M K q : Z) (r s : bool) :
  0 < K -> q = M / K -> flags_spec (M mod K) K r s ->
  let m1 := round_nearest_even q (loc_of_shr_record (Build_shr_record q r s)) in
  q <= m1 <= q + 1 /\ 2 * Z.abs (m1 * K - M) <= K.
Proof.
  intros HK -> Hfl m1. subst m1.
  pose proof (Z.div_mod M K ltac:(lia)) as Hdm.
  pose proof (Z.mod_pos_bound M K HK) as HR.
  destruct r, s; cbn [loc_of_shr_record round_nearest_even flags_spec] in *;
    try destruct (Z.even (M / K)); nia.
Qed.

Lemma digits2_pos_size p : digits2_pos p = Pos.size p.
Proof. induction p; simpl; congruence. Qed.

Lemma digits2_bounds (p : positive) :
  2 ^ (Z.pos (digits2_pos p) - 1) <= Z.pos p < 2 ^ Z.pos (digits2_pos p).
Proof.
  rewrite digits2_pos_size.
  pose proof (Pos.size_gt p) as Hgt. pose proof (Pos.size_le p) as Hle.
  apply Pos2Z.pos_lt_pos in Hgt. apply Pos2Z.pos_le_pos in Hle.
  rewrite Pos2Z.inj_pow in Hgt, Hle. rewrite (Pos2Z.inj_xO p) in Hle.
  replace (Z.pos (Pos.size p)) with (Z.succ (Z.pos (Pos.size p) - 1)) in Hle at 1 by lia.
  rewrite Z.pow_succ_r in Hle by lia. lia.
Qed.

Lemma digits2_unique (p : positive) (d : Z) :
  2 ^ (d - 1) <= Z.pos p < 2 ^ d -> Z.pos (digits2_pos p) = d.
Proof.
  intros [Hlo Hhi]. pose proof (digits2_bounds p) as [Hlo' Hhi'].
  set (d' := Z.pos (digits2_pos p)) in *.
  assert (0 < d).
  { destruct (Z.le_gt_cases d 0) as [Hd|]; [|lia].
    destruct (Z.eq_dec d 0) as [->|]; [simpl in Hhi; lia|].
    rewrite Z.pow_neg_r in Hhi by lia. lia. }
  assert (d' - 1 < d) by (apply (Z.pow_lt_mono_r_iff 2); lia).
  assert (d - 1 < d') by (apply (Z.pow_lt_mono_r_iff 2); lia).
  lia.
Qed.

Lemma fexp64_normal e : -1021 <= e -> fexp 53 1024 e = e - 53.
Proof. unfold fexp, emin. lia. Qed.

Lemma shr_fexp64_keep (m : positive) (e : Z) :
  Z.pos (digits2_pos m) <= 53 -> -1021 <= Z.pos (digits2_pos m) + e ->
  shr_fexp 53 1024 (Z.pos m) e loc_Exact
    = (Build_shr_record (Z.pos m) false false, e).
Proof.
  intros Hd He. unfold shr_fexp. cbn [Zdigits2 shr_record_of_loc].
  rewrite fexp64_normal by lia. unfold shr.
  destruct (Z.pos (digits2_pos m) + e - 53 - e) eqn:Hs; [reflexivity|lia|reflexivity].
Qed.

Lemma shr_fexp64_shift (m : positive) (e : Z) :
  let s := Z.pos (digits2_pos m) - 53 in
  0 < s -> -1021 <= Z.pos (digits2_pos m) + e ->
  exists r st,
    shr_fexp 53 1024 (Z.pos m) e loc_Exact
      = (Build_shr_record (Z.pos m / 2 ^ s) r st, e + s)
    /\ flags_spec (Z.pos m mod 2 ^ s) (2 ^ s) r st.
Proof.
  intros s Hs He. unfold shr_fexp. cbn [Zdigits2 shr_record_of_loc].
  rewrite fexp64_normal by lia. unfold shr.
  replace (Z.pos (digits2_pos m) + e - 53 - e) with s by lia.
  destruct s as [|p|p] eqn:Hp; [lia| |lia].
  destruct (iter_pos_shr_spec (Z.pos m) p ltac:(lia)) as (r & st & Heq & Hfl).
  exists r, st. rewrite Heq. auto.
Qed.

Lemma round_aux64 (sx : bool) (M : positive) (E : Z) :
  let d := Z.pos (digits2_pos M) in
  53 <= d -> -1021 <= d + E -> d + E <= 1023 ->
  exists (m2 : positive) (D : Z),
    binary_round_aux 53 1024 sx (Z.pos M) E loc_Exact = S754_finite sx m2 (E + D)
    /\ d - 53 <= D <= d - 52
    /\ 2 ^ 52 <= Z.pos m2 < 2 ^ 53
    /\ 2 * Z.abs (Z.pos m2 * 2 ^ D - Z.pos M) <= 2 ^ D.
Proof.
  intros d Hd Hlo Hhi. pose proof (digits2_bounds M) as HM. fold d in HM.
  unfold binary_round_aux.
  destruct (Z.eq_dec d 53) as [Hd53|Hd53].
  - rewrite shr_fexp64_keep by (fold d; lia).
    cbn [shr_m loc_of_shr_record round_nearest_even].
    rewrite shr_fexp64_keep by (fold d; lia). cbn [shr_m].
    replace (E <=? 1024 - 53) with true by (symmetry; apply Z.leb_le; lia).
    exists M, 0. rewrite Z.add_0_r. rewrite Hd53 in HM. simpl (53 - 1) in HM.
    repeat split; rewrite ?Z.pow_0_r; lia.
  - destruct (shr_fexp64_shift M E) as (r & st & Heq & Hfl); [fold d; lia..|].
    fold d in Heq, Hfl. set (s := d - 53) in *. rewrite Heq.
    cbn [shr_m].
    assert (Hs : 0 < 2 ^ s) by (apply Z.pow_pos_nonneg; lia).
    destruct (round_nearest_even_spec (Z.pos M) (2 ^ s) (Z.pos M / 2 ^ s) r st Hs eq_refl Hfl)
      as [Hm1 Herr].
    set (q := Z.pos M / 2 ^ s) in *.
    set (m1 := round_nearest_even q (loc_of_shr_record (Build_shr_record q r st))) in *.
    assert (Hq : 2 ^ 52 <= q < 2 ^ 53).
    { replace d with (s + 53) in HM by (unfold s; lia).
      replace (s + 53 - 1) with (s + 52) in HM by lia.
      rewrite !Z.pow_add_r in HM by lia. unfold q. split.
      - apply Z.div_le_lower_bound; lia.
      - apply Z.div_lt_upper_bound; lia. }
    clearbody m1. destruct m1 as [|m1|m1]; [lia| |lia].
    destruct (Z.eq_dec (Z.pos m1) (2 ^ 53)) as [Hcarry|Hcarry].
    + assert (Hdig : Z.pos (digits2_pos m1) = 54).
      { apply digits2_unique. rewrite Hcarry. simpl. lia. }
      unfold shr_fexp. cbn [Zdigits2 shr_record_of_loc]. rewrite Hdig.
      rewrite fexp64_normal by lia.
      replace (54 + (E + s) - 53 - (E + s)) with 1 by lia.
      cbn [shr iter_pos]. rewrite shr_1_nonneg by lia. cbn [shr_m].
      rewrite Hcarry. change (2 ^ 53 / 2) with (Z.pos (2 ^ 52)%positive).
      replace (E + s + 1 <=? 1024 - 53) with true by (symmetry; apply Z.leb_le; lia).
      exists (2 ^ 52)%positive, (s + 1). rewrite Z.add_assoc.
      repeat split; try (unfold s; lia); try (simpl; lia).
      rewrite Z.pow_add_r by lia. rewrite Hcarry in Herr.
      change (Z.pos (2 ^ 52)) with (2 ^ 52). change (2 ^ 53) with (2 ^ 52 * 2) in Herr.
      lia.
    + assert (Hdig : Z.pos (digits2_pos m1) = 53).
      { apply digits2_unique. simpl (53 - 1). lia. }
      rewrite shr_fexp64_keep by lia. cbn [shr_m].
      replace (E + s <=? 1024 - 53) with true by (symmetry; apply Z.leb_le; lia).
      exists m1, s. repeat split; try (unfold s; lia); lia.
Qed.

Lemma round_aux64_exact (sx : bool) (M : positive) (E : Z) :
  Z.pos (digits2_pos M) = 53 -> -1074 <= E <= 971 ->
  binary_round_aux 53 1024 sx (Z.pos M) E loc_Exact = S754_finite sx M E.
Proof.
  intros Hd HE. unfold binary_round_aux.
  rewrite shr_fexp64_keep by lia.
  cbn [shr_m loc_of_shr_record round_nearest_even].
  rewrite shr_fexp64_keep by lia. cbn [shr_m].
  replace (E <=? 1024 - 53) with true by (symmetry; apply Z.leb_le; lia).
  reflexivity.
Qed.

Lemma pos_iter_xO (p n : positive) : Z.pos (Pos.iter xO p n) = Z.pos p * 2 ^ Z.pos n.
Proof.
  induction n as [|n IH] using Pos.peano_ind.
  - simpl. lia.
  - rewrite Pos.iter_succ, Pos2Z.inj_xO, IH, Pos2Z.inj_succ, Z.pow_succ_r by lia. lia.
Qed.

Lemma of_Z_normal (n : Z) :
  0 < n < 2 ^ 53 ->
  exists (m : positive) (k : Z),
    Py.of_Z n = S754_finite false m (- k)
    /\ 0 <= k <= 52 /\ Z.pos m = n * 2 ^ k /\ Z.pos (digits2_pos m) = 53.
Proof.
  intros Hn. destruct n as [|p|p]; [lia| |lia].
  unfold Py.of_Z, Py.prec, Py.emax, binary_normalize, binary_round.
  pose proof (digits2_bounds p) as Hp. set (d := Z.pos (digits2_pos p)) in *.
  assert (Hd : 1 <= d <= 53).
  { split; [unfold d; lia|].
    destruct (Z.le_gt_cases d 53); [lia|].
    assert (2 ^ 53 <= 2 ^ (d - 1)) by (apply Z.pow_le_mono_r; lia). lia. }
  rewrite Z.add_0_r, fexp64_normal by lia. unfold shl_align.
  destruct (d - 53 - 0) as [|s|s] eqn:Hs; [|lia|].
  - rewrite round_aux64_exact by (fold d; lia).
    exists p, 0. rewrite Z.pow_0_r. repeat split; try fold d; lia.
  - assert (Hdig : Z.pos (digits2_pos (Pos.iter xO p s)) = 53).
    { apply digits2_unique. rewrite pos_iter_xO.
      replace 53 with (d + Z.pos s) at 2 by lia.
      replace (53 - 1) with (d - 1 + Z.pos s) by lia.
      rewrite !Z.pow_add_r by lia.
      assert (0 < 2 ^ Z.pos s) by (apply Z.pow_pos_nonneg; lia). nia. }
    rewrite round_aux64_exact by (try exact Hdig; lia).
    exists (Pos.iter xO p s), (Z.pos s).
    replace (d - 53) with (- Z.pos s) by lia.
    repeat split; try lia. apply pos_iter_xO.
Qed.

Lemma SFmul64_spec (mx my : positive) (ex ey : Z) :
  Z.pos (digits2_pos mx) = 53 -> Z.pos (digits2_pos my) = 53 ->
  -1126 <= ex + ey <= 917 ->
  exists (m2 : positive) (D : Z),
    SFmul 53 1024 (S754_finite false mx ex) (S754_finite false my ey)
      = S754_finite false m2 (ex + ey + D)
    /\ 52 <= D <= 54
    /\ 2 ^ 52 <= Z.pos m2 < 2 ^ 53
    /\ 2 * Z.abs (Z.pos m2 * 2 ^ D - Z.pos mx * Z.pos my) <= 2 ^ D.
Proof.
  intros Hx Hy HE. cbn [SFmul xorb].
  pose proof (digits2_bounds mx) as Bx. pose proof (digits2_bounds my) as By.
  rewrite Hx in Bx. rewrite Hy in By. simpl (53 - 1) in *.
  assert (Hd : 105 <= Z.pos (digits2_pos (mx * my)) <= 106).
  { pose proof (digits2_bounds (mx * my)) as [Hlo Hhi].
    set (d := Z.pos (digits2_pos (mx * my))) in *.
    rewrite Pos2Z.inj_mul in Hlo, Hhi.
    assert (2 ^ 104 <= Z.pos mx * Z.pos my < 2 ^ 106).
    { change (2 ^ 104) with (2 ^ 52 * 2 ^ 52). change (2 ^ 106) with (2 ^ 53 * 2 ^ 53). nia. }
    split.
    - destruct (Z.le_gt_cases 105 d); [lia|].
      assert (2 ^ d <= 2 ^ 104) by (apply Z.pow_le_mono_r; lia). lia.
    - destruct (Z.le_gt_cases d 106); [lia|].
      assert (2 ^ 106 <= 2 ^ (d - 1)) by (apply Z.pow_le_mono_r; lia). lia. }
  destruct (round_aux64 false (mx * my) (ex + ey)) as (m2 & D & Heq & HD & Hm2 & Herr);
    [lia..|].
  exists m2, D. rewrite Heq. rewrite Pos2Z.inj_mul in Herr. repeat split; try lia.
Qed.


(** Integer core of the argument: a mantissa [M2] within half a unit (scaled by
    [P]) of the exact product [n*K*c] truncates to the floor of [p*n/q]. *)
Lemma floor_lower (n K P G c q p v M2 T : Z) :
  0 < q -> 0 < n -> 0 < K -> 0 < P -> 0 < G -> 0 < c -> 0 < T ->
  M2 <= 2 ^ 53 - 1 ->
  2 * (n * K * c) <= 2 * (M2 * P) + P ->
  q * v <= p * n ->
  T * P = K * G ->
  (p * G - q * c <= 0 \/ (2 ^ 54 - 1) * (p * G - q * c) < q * c) ->
  v * T <= M2.
Proof.
  intros Hq Hn HK HP HG Hc HT HM2 Herr Hv HTP Hlow.
  destruct (Z.le_gt_cases (v * T) M2) as [|Hlt]; [assumption|exfalso].
  set (W := n * K) in *.
  assert (HW : 0 < W) by (apply Z.mul_pos_pos; assumption).
  assert (E1 : (M2 + 1) * P <= v * (K * G)).
  { rewrite <- HTP, Z.mul_assoc. apply Z.mul_le_mono_nonneg_r; lia. }
  assert (E2 : q * v * (K * G) <= p * n * (K * G)).
  { apply Z.mul_le_mono_nonneg_r; [|assumption]. apply Z.mul_nonneg_nonneg; lia. }
  set (d := p * G - q * c) in *.
  assert (E3 : q * P <= 2 * (W * d)).
  { assert (P <= 2 * (v * (K * G)) - 2 * (W * c)) by lia.
    assert (q * P <= q * (2 * (v * (K * G)) - 2 * (W * c)))
      by (apply Z.mul_le_mono_nonneg_l; lia).
    replace (2 * (W * d)) with (2 * (p * n * (K * G)) - q * (2 * (W * c)))
      by (unfold d, W; ring).
    replace (q * (2 * (v * (K * G)) - 2 * (W * c)))
      with (2 * (q * v * (K * G)) - q * (2 * (W * c))) in * by ring.
    lia. }
  assert (HqP : 0 < q * P) by (apply Z.mul_pos_pos; assumption).
  destruct Hlow as [Hd|Hd].
  - assert (W * d <= 0) by (apply Z.mul_nonneg_nonpos; lia). lia.
  - assert (E4 : 2 * (W * c) <= (2 ^ 54 - 1) * P).
    { assert (M2 * P <= (2 ^ 53 - 1) * P) by (apply Z.mul_le_mono_nonneg_r; lia). lia. }
    assert (E5 : q * (2 * (W * c)) <= (2 ^ 54 - 1) * (q * P)).
    { replace ((2 ^ 54 - 1) * (q * P)) with (q * ((2 ^ 54 - 1) * P)) by ring.
      apply Z.mul_le_mono_nonneg_l; lia. }
    assert (E6 : (2 * W) * (q * c) <= (2 * W) * ((2 ^ 54 - 1) * d)).
    { replace (2 * W * (q * c)) with (q * (2 * (W * c))) by ring.
      replace (2 * W * ((2 ^ 54 - 1) * d)) with ((2 ^ 54 - 1) * (2 * (W * d))) by ring.
      lia. }
    apply Z.mul_le_mono_pos_l in E6; lia.
Qed.

Lemma floor_upper (n K P G c q p v M2 T B : Z) :
  0 < q -> 0 < n < B -> 0 < K -> 0 < P -> 0 < G -> 0 < c -> 0 < T ->
  2 ^ 52 <= M2 ->
  2 * (M2 * P) - P <= 2 * (n * K * c) ->
  p * n < q * v + q ->
  T * P = K * G ->
  q * B * c < (2 ^ 53 - 1) * (G - B * Z.abs (p * G - q * c)) ->
  M2 < v * T + T.
Proof.
  intros Hq Hn HK HP HG Hc HT HM2 Herr Hv HTP Hup.
  destruct (Z.le_gt_cases (v * T + T) M2) as [Hge|]; [exfalso|assumption].
  set (W := n * K) in *.
  assert (HW : 0 < W) by (apply Z.mul_pos_pos; lia).
  assert (E1 : (v + 1) * (K * G) <= M2 * P).
  { rewrite <- HTP, Z.mul_assoc. apply Z.mul_le_mono_nonneg_r; lia. }
  assert (E2 : (p * n + 1) * (K * G) <= (q * v + q) * (K * G)).
  { apply Z.mul_le_mono_nonneg_r; [|lia]. apply Z.mul_nonneg_nonneg; lia. }
  set (d := p * G - q * c) in *.
  assert (E3 : 2 * (K * (n * d + G)) <= q * P).
  { assert (2 * ((v + 1) * (K * G)) - 2 * (W * c) <= P) by lia.
    assert (q * (2 * ((v + 1) * (K * G)) - 2 * (W * c)) <= q * P)
      by (apply Z.mul_le_mono_nonneg_l; lia).
    replace (2 * (K * (n * d + G)))
      with (2 * ((p * n + 1) * (K * G)) - q * (2 * (W * c))) by (unfold d, W; ring).
    replace (q * (2 * ((v + 1) * (K * G)) - 2 * (W * c)))
      with (2 * ((q * v + q) * (K * G)) - q * (2 * (W * c))) in * by ring.
    lia. }
  assert (E4 : (2 ^ 53 - 1) * P <= 2 * (W * c)).
  { assert (2 ^ 52 * P <= M2 * P) by (apply Z.mul_le_mono_nonneg_r; lia). lia. }
  assert (E5 : (2 ^ 53 - 1) * (q * P) <= q * (2 * (W * c))).
  { replace ((2 ^ 53 - 1) * (q * P)) with (q * ((2 ^ 53 - 1) * P)) by ring.
    apply Z.mul_le_mono_nonneg_l; lia. }
  assert (E6 : (2 * K) * ((2 ^ 53 - 1) * (n * d + G)) <= (2 * K) * (q * n * c)).
  { replace (2 * K * ((2 ^ 53 - 1) * (n * d + G)))
      with ((2 ^ 53 - 1) * (2 * (K * (n * d + G)))) by ring.
    replace (2 * K * (q * n * c)) with (q * (2 * (W * c))) by (unfold W; ring).
    lia. }
  apply Z.mul_le_mono_pos_l in E6; [|lia].
  assert (E7 : - (B * Z.abs d) <= n * d).
  { assert (n * Z.abs d <= B * Z.abs d) by (apply Z.mul_le_mono_nonneg_r; lia).
    assert (- (n * Z.abs d) <= n * d).
    { destruct (Z.abs_spec d) as [[? ->]|[? ->]].
      - assert (0 <= n * d) by (apply Z.mul_nonneg_nonneg; lia). lia.
      - replace (n * - d) with (- (n * d)) by ring. lia. }
    lia. }
  assert (E8 : q * n * c <= q * B * c).
  { apply Z.mul_le_mono_nonneg_r; [lia|]. apply Z.mul_le_mono_nonneg_l; lia. }
  assert (E9 : (2 ^ 53 - 1) * (G - B * Z.abs d) <= (2 ^ 53 - 1) * (n * d + G))
    by (apply Z.mul_le_mono_nonneg_l; lia).
  lia.
Qed.

Lemma shift_below_point (n K P G c q B d M2 : Z) :
  2 <= q -> 0 < n < B -> 0 < K -> 0 < P -> 0 < G -> 0 < c ->
  2 ^ 52 <= M2 ->
  2 * (M2 * P) - P <= 2 * (n * K * c) ->
  q * B * c < (2 ^ 53 - 1) * (G - B * Z.abs d) ->
  P < K * G.
Proof.
  intros Hq Hn HK HP HG Hc HM2 Herr Hup.
  assert (E1 : (2 ^ 53 - 1) * P <= 2 * (n * K * c)).
  { assert (2 ^ 52 * P <= M2 * P) by (apply Z.mul_le_mono_nonneg_r; lia). lia. }
  assert (E2 : (2 ^ 53 - 1) * (G - B * Z.abs d) <= (2 ^ 53 - 1) * G).
  { apply Z.mul_le_mono_nonneg_l; [lia|].
    assert (0 <= B * Z.abs d) by (apply Z.mul_nonneg_nonneg; lia). lia. }
  assert (E3 : 2 * (n * c) <= q * B * c).
  { replace (q * B * c) with (q * (B * c)) by ring.
    assert (n * c <= B * c) by (apply Z.mul_le_mono_nonneg_r; lia).
    assert (2 * (B * c) <= q * (B * c)).
    { apply Z.mul_le_mono_nonneg_r; [|lia]. apply Z.mul_nonneg_nonneg; lia. }
    lia. }
  assert (E4 : K * (2 * (n * c)) < K * ((2 ^ 53 - 1) * G))
    by (apply Z.mul_lt_mono_pos_l; lia).
  assert (E5 : (2 ^ 53 - 1) * P < (2 ^ 53 - 1) * (K * G)).
  { replace ((2 ^ 53 - 1) * (K * G)) with (K * ((2 ^ 53 - 1) * G)) by ring.
    replace (2 * (n * K * c)) with (K * (2 * (n * c))) in E1 by ring. lia. }
  apply Z.mul_lt_mono_pos_l in E5; lia.
Qed.


Lemma of_Z_zero : Py.of_Z 0 = S754_zero false.
Proof. reflexivity. Qed.

Lemma int_scaled_floor (mc : positive) (ec p q B n : Z) :
  scale_exact_cond mc ec p q B = true ->
  0 <= n < B ->
  Py.int_scaled n (S754_finite false mc ec) = Ok (p * n / q).
Proof.
  unfold scale_exact_cond. intros Hc Hn.
  repeat (apply andb_prop in Hc; destruct Hc as [Hc ?]).
  repeat match goal with
         | H : (_ =? _) = true |- _ => apply Z.eqb_eq in H
         | H : (_ <=? _) = true |- _ => apply Z.leb_le in H
         | H : (_ <? _) = true |- _ => apply Z.ltb_lt in H
         end.
  match goal with H : (_ || _) = true |- _ => rename H into Hlow end.
  match goal with H : _ < (2 ^ 53 - 1) * _ |- _ => rename H into Hup end.
  assert (Hlow' : p * 2 ^ (- ec) - q * Z.pos mc <= 0
                  \/ (2 ^ 54 - 1) * (p * 2 ^ (- ec) - q * Z.pos mc) < q * Z.pos mc).
  { apply orb_prop in Hlow. destruct Hlow as [Hl|Hl];
      [left; apply Z.leb_le in Hl|right; apply Z.ltb_lt in Hl]; exact Hl. }
  clear Hlow. set (G := 2 ^ (- ec)) in *.
  unfold Py.int_scaled, Py.int_mul_float, Py.float_of_int.
  destruct (Z.eq_dec n 0) as [->|Hn0].
  { rewrite Z.mul_0_r. reflexivity. }
  destruct (of_Z_normal n) as (mh & k & -> & Hk & Hmh & Hdh); [lia|].
  cbn [mbind result_bind]. unfold Py.mul, Py.prec, Py.emax.
  destruct (SFmul64_spec mh mc (- k) ec) as (m2 & D & -> & HD & Hm2 & Herr);
    [assumption|assumption|lia|].
  cbn [Py.int cond_Zopp].
  assert (HG : 0 < G) by (apply Z.pow_pos_nonneg; lia).
  assert (HK : 0 < 2 ^ k) by (apply Z.pow_pos_nonneg; lia).
  assert (HP : 0 < 2 ^ D) by (apply Z.pow_pos_nonneg; lia).
  rewrite Hmh in Herr.
  assert (Herr' : 2 * (Z.pos m2 * 2 ^ D) - 2 ^ D <= 2 * (n * 2 ^ k * Z.pos mc)
                  <= 2 * (Z.pos m2 * 2 ^ D) + 2 ^ D) by lia.
  clear Herr. destruct Herr' as [Herr1 Herr2].
  assert (HPKG : 2 ^ D < 2 ^ k * G).
  { eapply (shift_below_point n (2 ^ k) (2 ^ D) G (Z.pos mc) q B _ (Z.pos m2));
      try eassumption; lia. }
  assert (HDlt : D < k - ec).
  { apply (Z.pow_lt_mono_r_iff 2); [lia|lia|].
    unfold G in HPKG. rewrite <- Z.pow_add_r in HPKG by lia.
    replace (k - ec) with (k + - ec) by lia. exact HPKG. }
  replace (0 <=? - k + ec + D) with false by (symmetry; apply Z.leb_gt; lia).
  set (T := 2 ^ (- (- k + ec + D))).
  assert (HT : 0 < T) by (apply Z.pow_pos_nonneg; lia).
  assert (HTP : T * 2 ^ D = 2 ^ k * G).
  { unfold T, G. rewrite <- !Z.pow_add_r by lia. f_equal. lia. }
  set (v := p * n / q).
  assert (Hv : q * v <= p * n < q * v + q).
  { pose proof (Z.div_mod (p * n) q ltac:(lia)).
    pose proof (Z.mod_pos_bound (p * n) q ltac:(lia)). unfold v. lia. }
  assert (Hlo : v * T <= Z.pos m2).
  { eapply (floor_lower n (2 ^ k) (2 ^ D) G (Z.pos mc) q p v (Z.pos m2) T);
      try eassumption; lia. }
  assert (Hhi : Z.pos m2 < v * T + T).
  { eapply (floor_upper n (2 ^ k) (2 ^ D) G (Z.pos mc) q p v (Z.pos m2) T B);
      try eassumption; lia. }
  f_equal. symmetry. apply Z.div_unique with (Z.pos m2 - v * T); lia.
Qed.

(** [int(n * c)] is defined, and not negative, for every non-negative [n]
    below [2^53] and every positive normal constant [c]. *)
Lemma int_scaled_defined (mc : positive) (ec n : Z) :
  Z.pos (digits2_pos mc) = 53 -> -1074 <= ec <= 917 ->
  0 <= n < 2 ^ 53 ->
  exists z, Py.int_scaled n (S754_finite false mc ec) = Ok z /\ 0 <= z.
Proof.
  intros Hmc Hec Hn.
  unfold Py.int_scaled, Py.int_mul_float, Py.float_of_int.
  destruct (Z.eq_dec n 0) as [->|Hn0].
  { exists 0. split; [reflexivity|lia]. }
  destruct (of_Z_normal n) as (mh & k & -> & Hk & Hmh & Hdh); [lia|].
  cbn [mbind result_bind]. unfold Py.mul, Py.prec, Py.emax.
  destruct (SFmul64_spec mh mc (- k) ec) as (m2 & D & -> & HD & Hm2 & Herr);
    [assumption|assumption|lia|].
  cbn [Py.int cond_Zopp]. eexists. split; [reflexivity|].
  destruct (0 <=? - k + ec + D) eqn:He.
  - apply Z.mul_nonneg_nonneg; [lia|]. apply Z.pow_nonneg. lia.
  - apply Z.leb_gt in He. apply Z.div_pos; [lia|]. apply Z.pow_pos_nonneg; lia.
Qed.

(** *** Sums and products of normal numbers *)

Lemma shl_align_fst (m : positive) (e e' : Z) :
  e' <= e -> Z.pos (fst (shl_align m e e')) = Z.pos m * 2 ^ (e - e').
Proof.
  intros He. unfold shl_align.
  destruct (e' - e) as [|d|d] eqn:Hd; cbn [fst].
  - replace (e - e') with 0 by lia. lia.
  - lia.
  - rewrite pos_iter_xO. f_equal. f_equal. lia.
Qed.

Lemma digits2_upper (p : positive) (d : Z) :
  0 <= d -> Z.pos p < 2 ^ d -> Z.pos (digits2_pos p) <= d.
Proof.
  intros Hd Hp. pose proof (digits2_bounds p) as [Hlo _].
  destruct (Z.le_gt_cases (Z.pos (digits2_pos p)) d) as [|Hgt]; [assumption|].
  assert (2 ^ d <= 2 ^ (Z.pos (digits2_pos p) - 1)) by (apply Z.pow_le_mono_r; lia).
  lia.
Qed.

Lemma digits2_lower (p : positive) (d : Z) :
  2 ^ (d - 1) <= Z.pos p -> d <= Z.pos (digits2_pos p).
Proof.
  intros Hp. pose proof (digits2_bounds p) as [_ Hhi].
  destruct (Z.le_gt_cases d (Z.pos (digits2_pos p))) as [|Hgt]; [assumption|].
  assert (2 ^ Z.pos (digits2_pos p) <= 2 ^ (d - 1)) by (apply Z.pow_le_mono_r; lia).
  lia.
Qed.

(** The sum of two positive normal binary64 numbers of moderate exponent is
    finite. *)
Lemma add64_finite (mx my : positive) (ex ey : Z) :
  Z.pos (digits2_pos mx) = 53 -> Z.pos (digits2_pos my) = 53 ->
  -900 <= ex <= 900 -> -900 <= ey <= 900 ->
  exists (m : positive) (e : Z),
    Py.add (S754_finite false mx ex) (S754_finite false my ey) = S754_finite false m e.
Proof.
  intros Hx Hy Hex Hey. unfold Py.add, Py.prec, Py.emax. cbn [SFadd cond_Zopp].
  set (ez := Z.min ex ey).
  pose proof (shl_align_fst mx ex ez ltac:(unfold ez; lia)) as Ha.
  pose proof (shl_align_fst my ey ez ltac:(unfold ez; lia)) as Hb.
  set (a := fst (shl_align mx ex ez)) in *. set (b := fst (shl_align my ey ez)) in *.
  change (Z.pos a + Z.pos b) with (Z.pos (a + b)).
  cbn [binary_normalize]. unfold binary_round.
  pose proof (digits2_bounds mx) as Bx. pose proof (digits2_bounds my) as By.
  rewrite Hx in Bx. rewrite Hy in By. simpl (53 - 1) in *.
  assert (Hpx : 1 <= 2 ^ (ex - ez)) by (apply (Z.pow_le_mono_r 2 0); unfold ez; lia).
  assert (Hpy : 1 <= 2 ^ (ey - ez)) by (apply (Z.pow_le_mono_r 2 0); unfold ez; lia).
  set (top := Z.max ex ey - ez).
  assert (Hqx : 2 ^ (ex - ez) <= 2 ^ top) by (apply Z.pow_le_mono_r; unfold top, ez; lia).
  assert (Hqy : 2 ^ (ey - ez) <= 2 ^ top) by (apply Z.pow_le_mono_r; unfold top, ez; lia).
  assert (Hlo : 53 <= Z.pos (digits2_pos (a + b))).
  { apply digits2_lower. rewrite Pos2Z.inj_add. simpl (53 - 1). nia. }
  assert (Hhi : Z.pos (digits2_pos (a + b)) <= 54 + top).
  { apply digits2_upper; [unfold top, ez; lia|].
    rewrite Pos2Z.inj_add, Z.pow_add_r by (unfold top, ez; lia).
    change (2 ^ 54) with (2 * 2 ^ 53). nia. }
  set (d := Z.pos (digits2_pos (a + b))) in *.
  rewrite fexp64_normal by (unfold ez; lia).
  unfold shl_align.
  destruct (d + ez - 53 - ez) as [|s|s] eqn:Hs; [| |lia].
  - destruct (round_aux64 false (a + b) ez) as (m & D & -> & _);
      [fold d; unfold top, ez in *; lia..|]. eauto.
  - destruct (round_aux64 false (a + b) ez) as (m & D & -> & _);
      [fold d; unfold top, ez in *; lia..|]. eauto.
Qed.

Lemma mul64_normal (mx my : positive) (ex ey : Z) :
  Z.pos (digits2_pos mx) = 53 -> Z.pos (digits2_pos my) = 53 ->
  -1126 <= ex + ey <= 917 ->
  exists (m : positive) (e : Z),
    Py.mul (S754_finite false mx ex) (S754_finite false my ey) = S754_finite false m e
    /\ Z.pos (digits2_pos m) = 53 /\ ex + ey + 52 <= e <= ex + ey + 54.
Proof.
  intros Hx Hy He.
  destruct (SFmul64_spec mx my ex ey Hx Hy He) as (m & D & Heq & HD & Hm & _).
  exists m, (ex + ey + D). split; [exact Heq|]. split; [|lia].
  apply digits2_unique. simpl (53 - 1). exact Hm.
Qed.

Lemma int_mul_float_cases (n : Z) (mc : positive) (ec : Z) :
  0 <= n < 2 ^ 53 -> Z.pos (digits2_pos mc) = 53 -> -1074 <= ec <= 800 ->
  Py.int_mul_float n (S754_finite false mc ec) = Ok f64_zero
  \/ exists m e, Py.int_mul_float n (S754_finite false mc ec) = Ok (S754_finite false m e)
                 /\ Z.pos (digits2_pos m) = 53 /\ ec <= e <= ec + 54.
Proof.
  intros Hn Hmc Hec. unfold Py.int_mul_float.
  destruct (Z.eq_dec n 0) as [->|Hne]; [by left|right].
  destruct (of_Z_normal n ltac:(lia)) as (mh & k & Heq & Hk & _ & Hd).
  unfold Py.float_of_int. rewrite Heq. cbn [mbind result_bind].
  destruct (mul64_normal mh mc (- k) ec Hd Hmc ltac:(lia)) as (m & e & -> & Hdm & He).
  exists m, e. repeat split; [assumption|lia|lia].
Qed.

Lemma int_add_float_defined (n : Z) (x : Py.float) :
  0 <= n < 2 ^ 53 ->
  x = f64_zero
  \/ (exists m e, x = S754_finite false m e
                  /\ Z.pos (digits2_pos m) = 53 /\ -900 <= e <= 900) ->
  exists z, Py.int_add_float n x ≫= Py.int = Ok z.
Proof.
  intros Hn Hx. unfold Py.int_add_float.
  destruct (Z.eq_dec n 0) as [->|Hne].
  - change (Py.float_of_int 0) with (Ok f64_zero).
    destruct Hx as [->|(m & e & -> & _)]; cbn; eauto.
  - destruct (of_Z_normal n ltac:(lia)) as (mn & k & Heq & Hk & _ & Hd).
    unfold Py.float_of_int. rewrite Heq.
    destruct Hx as [->|(m & e & -> & Hdm & He)].
    + cbn. eauto.
    + cbn [mbind result_bind].
      destruct (add64_finite mn m (- k) e Hd Hdm ltac:(lia) ltac:(lia)) as (m' & e' & ->).
      cbn. eauto.
Qed.

(** ** Proportional sizes: every constant of [draw_tie] *)

Lemma scale_floor (num den : Z) (mc : positive) (ec B n : Z) :
  Py.literal num den = S754_finite false mc ec ->
  scale_exact_cond mc ec num den B = true ->
  0 <= n < B ->
  scale n num den = Ok (num * n / den).
Proof.
  intros Hl Hc Hn. unfold scale. rewrite Hl. by apply int_scaled_floor with B.
Qed.

Lemma scale_defined (num den : Z) (mc : positive) (ec n : Z) :
  Py.literal num den = S754_finite false mc ec ->
  Z.pos (digits2_pos mc) = 53 -> -1074 <= ec <= 917 ->
  0 <= n < 2 ^ 53 ->
  exists z, scale n num den = Ok z /\ 0 <= z.
Proof.
  intros Hl Hd He Hn. unfold scale. rewrite Hl. by apply int_scaled_defined.
Qed.

Ltac scale_exact :=
  eapply (scale_floor _ _ _ _ max_dim);
  [vm_compute; reflexivity | vm_compute; reflexivity | assumption].

Lemma scale_42_100 n : 0 <= n < max_dim -> scale n 42 100 = Ok (42 * n / 100).
Proof. intros. scale_exact. Qed.

Lemma scale_22_100 n : 0 <= n < max_dim -> scale n 22 100 = Ok (22 * n / 100).
Proof. intros. scale_exact. Qed.

Lemma scale_12_100 n : 0 <= n < max_dim -> scale n 12 100 = Ok (12 * n / 100).
Proof. intros. scale_exact. Qed.

Lemma scale_16_100 n : 0 <= n < max_dim -> scale n 16 100 = Ok (16 * n / 100).
Proof. intros. scale_exact. Qed.

Lemma scale_20_100 n : 0 <= n < max_dim -> scale n 20 100 = Ok (20 * n / 100).
Proof. intros. scale_exact. Qed.

Lemma scale_12_10 n : 0 <= n < max_dim -> scale n 12 10 = Ok (12 * n / 10).
Proof. intros. scale_exact. Qed.

Lemma scale_16_10 n : 0 <= n < max_dim -> scale n 16 10 = Ok (16 * n / 10).
Proof. intros. scale_exact. Qed.

Lemma scale_2_100 n : 0 <= n < max_dim -> scale n 2 100 = Ok (2 * n / 100).
Proof. intros. scale_exact. Qed.

Lemma scale_6_10 n : 0 <= n < max_dim -> scale n 6 10 = Ok (6 * n / 10).
Proof. intros. scale_exact. Qed.

Lemma scale_4_10 n : 0 <= n < max_dim -> scale n 4 10 = Ok (4 * n / 10).
Proof. intros. scale_exact. Qed.

Lemma scale_45_100 n : 0 <= n < max_dim -> scale n 45 100 = Ok (45 * n / 100).
Proof. intros. scale_exact. Qed.

(** [0.7] lies too far below 7/10 for the floor to be exact
    ([int(90 * 0.7)] is 62), so only definedness is stated. *)
Lemma scale_7_10 n : 0 <= n < max_dim -> exists z, scale n 7 10 = Ok z /\ 0 <= z.
Proof.
  intros. eapply scale_defined; [vm_compute; reflexivity|reflexivity|lia|].
  unfold max_dim in *. lia.
Qed.

Example scale_7_10_inexact : scale 90 7 10 = Ok 62.
Proof. vm_compute. reflexivity. Qed.

(** ** [draw_tie]: sizes and geometry *)

(** Unfolds one successful step of a computation in [result]. *)
Ltac bind_ok H :=
  repeat match type of H with
         | mbind _ ?m = Ok _ =>
             let E := fresh "E" in
             destruct m as [?|?] eqn:E; [cbn [mbind result_bind] in H|discriminate H]
         | (let '(_, _) := ?p in _) = Ok _ => destruct p; cbn beta iota in H
         end.

Lemma tie_sizing_value (h face_height : Z) :
  0 <= h < max_dim -> 0 <= face_height < max_dim ->
  tie_sizing h face_height
  = Ok (mkTieSizing (Z.max 12 (12 * face_height / 100))
                    (Z.max 16 (16 * face_height / 100))
                    (Z.max (20 * h / 100) (12 * face_height / 10))
                    (Z.max 26 (16 * Z.max 16 (16 * face_height / 100) / 10))).
Proof.
  intros Hh Hf. unfold tie_sizing.
  rewrite scale_12_100, scale_16_100, scale_20_100, scale_12_10 by assumption.
  cbn [mbind result_bind]. rewrite scale_16_10; [reflexivity|].
  unfold max_dim in *. Z.div_mod_to_equations. lia.
Qed.

Lemma tie_geometry_defined (w h : Z) (face_box : option FaceBox) (cx cy fh : Z) :
  0 <= h < max_dim -> 0 <= fh < max_dim ->
  tie_anchor w h face_box = Ok (cx, cy, fh) ->
  exists g,
    tie_geometry w h face_box = Ok g
    /\ tg_cx g = cx /\ tg_cy g = cy /\ tg_face_height g = fh.
Proof.
  intros Hh Hf Ha. unfold tie_geometry. rewrite Ha. cbn [mbind result_bind].
  rewrite tie_sizing_value by assumption. cbn [mbind result_bind].
  set (kw := Z.max 16 (16 * fh / 100)).
  set (tbw := Z.max 26 (16 * kw / 10)).
  assert (Hkw : 0 <= kw < max_dim).
  { unfold kw, max_dim in *. Z.div_mod_to_equations. lia. }
  assert (Htbw : 0 <= tbw < max_dim).
  { unfold tbw, kw, max_dim in *. Z.div_mod_to_equations. lia. }
  unfold knot_shape. cbn [knot_height knot_width tie_length tie_bottom_width].
  rewrite scale_2_100 by assumption. cbn [mbind result_bind].
  destruct (scale_7_10 (kw / 2)) as (z & -> & _).
  { unfold max_dim in *. Z.div_mod_to_equations. lia. }
  cbn [mbind result_bind].
  unfold blade_shape. cbn [knot_height knot_width tie_length tie_bottom_width].
  rewrite scale_6_10, scale_4_10 by assumption. cbn [mbind result_bind].
  unfold highlight_shape. cbn [tie_bottom_width].
  rewrite scale_45_100 by assumption. cbn [mbind result_bind].
  eexists. split; [reflexivity|]. cbn. auto.
Qed.

Lemma tie_anchor_fallback (w h : Z) :
  0 <= h < max_dim ->
  tie_anchor w h None = Ok (w / 2, 42 * h / 100, 22 * h / 100).
Proof.
  intros Hh. unfold tie_anchor.
  rewrite scale_42_100, scale_22_100 by assumption. reflexivity.
Qed.

(** With or without a face box the geometry is defined. *)
Lemma center_bottom_defined (fb : FaceBox) :
  0 <= fb_y fb < max_dim -> 0 <= fb_height fb < max_dim ->
  exists cy, center_bottom fb = Ok (fb_x fb + fb_width fb / 2, cy).
Proof.
  intros Hy Hh. unfold center_bottom, max_dim in *.
  assert (Hlit : Py.literal 95 100 = S754_finite false 8556839292003942 (-53))
    by (vm_compute; reflexivity).
  rewrite Hlit.
  destruct (int_mul_float_cases (fb_height fb) 8556839292003942 (-53))
    as [Hs|(m & e & Hs & Hdm & He)]; [lia|reflexivity|lia| |]; rewrite Hs;
    cbn [mbind result_bind].
  - destruct (int_add_float_defined (fb_y fb) f64_zero) as [z Hz]; [lia|by left|].
    unfold mbind, result_bind in Hz |- *.
    destruct (Py.int_add_float (fb_y fb) f64_zero); [|discriminate].
    rewrite Hz. eauto.
  - destruct (int_add_float_defined (fb_y fb) (S754_finite false m e)) as [z Hz];
      [lia|right; exists m, e; repeat split; [assumption|lia|lia]|].
    unfold mbind, result_bind in Hz |- *.
    destruct (Py.int_add_float (fb_y fb) (S754_finite false m e)); [|discriminate].
    rewrite Hz. eauto.
Qed.

Lemma tie_geometry_total (w h : Z) (face_box : option FaceBox) :
  0 <= h < max_dim -> face_in_range face_box ->
  exists g, tie_geometry w h face_box = Ok g.
Proof.
  intros Hh Hf. destruct face_box as [fb|].
  - destruct Hf as [Hy Hfh].
    destruct (center_bottom_defined fb Hy Hfh) as [cy Hc].
    destruct (tie_geometry_defined w h (Some fb) (fb_x fb + fb_width fb / 2) cy (fb_height fb))
      as (g & Hg & _); [assumption|assumption| |eauto].
    cbn [tie_anchor]. by rewrite Hc.
  - destruct (tie_geometry_defined w h None (w / 2) (42 * h / 100) (22 * h / 100))
      as (g & Hg & _); [assumption| |by apply tie_anchor_fallback|eauto].
    unfold max_dim in *. Z.div_mod_to_equations. lia.
Qed.

(** ** [draw_tie]: the image objects *)

Section Heap.
Context `{Pillow}.

Lemma bind_run {A B : Type} (m : M A) (f : A -> M B) (s : heap) :
  (m ≫= f) s = match m s with
                | (Ok a, s') => f a s'
                | (Raise e, s') => (Raise e, s')
                end.
Proof. reflexivity. Qed.

Lemma frames_lift {A : Type} (l : ref) (r : result A) : frames l (lift r).
Proof. intros s. reflexivity. Qed.

Lemma frames_ret {A : Type} (l : ref) (a : A) : frames l (mret a : M A).
Proof. intros s. reflexivity. Qed.

Lemma frames_bind {A B : Type} (l : ref) (m : M A) (f : A -> M B) :
  frames l m -> (forall a, frames l (f a)) -> frames l (m ≫= f).
Proof.
  intros Hm Hf s. rewrite bind_run. specialize (Hm s).
  destruct (m s) as [[a|e] s']; cbn [snd] in *.
  - by rewrite Hf.
  - done.
Qed.

Lemma frames_size (l l' : ref) : frames l (image_size l').
Proof. intros s. unfold image_size. by destruct (s !! l'). Qed.

Lemma frames_polygon (l img : ref) xy fill outline :
  l <> img -> frames l (draw_polygon img xy fill outline).
Proof.
  intros Hne s. unfold draw_polygon. destruct (s !! img); cbn [snd]; [|done].
  by rewrite lookup_insert_ne.
Qed.

Ltac solve_frames :=
  repeat first
    [ apply frames_lift
    | apply frames_ret
    | apply frames_size
    | apply frames_polygon; congruence
    | apply frames_bind; [|intros ?]
    | match goal with
      | |- frames _ (let '(_, _) := ?p in _) => destruct p
      end ].

(** A copy lands on an object the store does not hold yet. *)
Lemma fresh_unused (s : heap) : s !! fresh (dom s) = None.
Proof. apply not_elem_of_dom. apply is_fresh. Qed.

Lemma draw_tie_on_frame (l img : ref) (face_box : option FaceBox) :
  l <> img -> frames l (draw_tie_on img face_box).
Proof. intros Hne. unfold draw_tie_on. solve_frames. Qed.

Lemma draw_tie_on_returns (img : ref) (face_box : option FaceBox) (s : heap) :
  match (draw_tie_on img face_box s).1 with
  | Ok r => r = img
  | Raise _ => True
  end.
Proof.
  unfold draw_tie_on.
  repeat (rewrite bind_run;
          match goal with
          | |- context [match ?x with (_, _) => _ end] =>
              destruct x as [[?|?] ?]; cbn [fst]; [|done]
          end;
          repeat match goal with
                 | |- context [let '(_, _) := ?p in _] => destruct p
                 end).
  by cbn.
Qed.

(** The run of [draw_tie] on a store that holds the input image. *)
Lemma draw_tie_run (l : ref) (face_box : option FaceBox) (s : heap) (im : Image RGBA) :
  s !! l = Some im ->
  let tmp := fresh (dom s) in
  let s1 := <[tmp:=im]> s in
  let img := fresh (dom s1) in
  draw_tie l face_box s = draw_tie_on img face_box (<[img:=im]> s1)
  /\ l <> tmp /\ l <> img /\ s !! img = None.
Proof.
  intros Hl tmp s1 img.
  assert (Htmp : s !! tmp = None) by apply fresh_unused.
  assert (Himg : s1 !! img = None) by apply fresh_unused.
  assert (H1 : s1 !! tmp = Some im) by apply lookup_insert_eq.
  assert (Hne : img <> tmp) by congruence.
  split; [|split; [congruence|split]].
  - unfold draw_tie. rewrite bind_run. unfold image_copy at 1. rewrite Hl.
    fold tmp. fold s1. rewrite bind_run.
    unfold image_convert_rgba, image_copy. rewrite H1. reflexivity.
  - intros ->. unfold s1 in Himg. rewrite lookup_insert_ne in Himg; congruence.
  - unfold s1 in Himg. by rewrite lookup_insert_ne in Himg.
Qed.

(** C10: [draw_tie] never mutates its input.  It draws on a copy: after the
    call the object [image_rgba] holds the pixels it held before, whether the
    call returns or raises, and the returned image is an object that did not
    exist before the call (so it is not the input). *)
Theorem draw_tie_never_mutates_input
    (image_rgba : ref) (face_box : option FaceBox) (s : heap) :
  (draw_tie image_rgba face_box s).2 !! image_rgba = s !! image_rgba
  /\ match (draw_tie image_rgba face_box s).1 with
     | Ok img => img <> image_rgba /\ s !! img = None
     | Raise _ => True
     end.
Proof.
  rename image_rgba into l.
  destruct (s !! l) as [im|] eqn:Hl.
  - destruct (draw_tie_run l face_box s im Hl) as (-> & Hne1 & Hne2 & Hnew).
    split.
    + rewrite draw_tie_on_frame by assumption.
      rewrite !lookup_insert_ne by congruence. done.
    + pose proof (draw_tie_on_returns (fresh (dom (<[fresh (dom s):=im]> s)))
                    face_box (<[fresh (dom (<[fresh (dom s):=im]> s)):=im]>
                                (<[fresh (dom s):=im]> s))) as Hr.
      destruct (draw_tie_on _ _ _).1; [subst|done]. split; congruence.
  - unfold draw_tie. rewrite bind_run. unfold image_copy. rewrite Hl.
    cbn [fst snd]. by rewrite Hl.
Qed.

Lemma bind_lift_ok {A B : Type} (r : result A) (a : A) (f : A -> M B) (s : heap) :
  r = Ok a -> (lift r ≫= f) s = f a s.
Proof. intros ->. reflexivity. Qed.

Lemma bind_size {B : Type} (img : ref) (im : Image RGBA) (f : Z * Z -> M B) (s : heap) :
  s !! img = Some im -> (image_size img ≫= f) s = f (im_size im) s.
Proof. intros Hs. rewrite bind_run. unfold image_size. by rewrite Hs. Qed.

Lemma bind_polygon {B : Type} (img : ref) (im : Image RGBA) xy fill outline
    (f : unit -> M B) (s : heap) :
  s !! img = Some im ->
  (draw_polygon img xy fill outline ≫= f) s
  = f tt (<[img:=polygon im xy fill outline]> s).
Proof. intros Hs. rewrite bind_run. unfold draw_polygon. by rewrite Hs. Qed.

Lemma draw_tie_on_paints (img : ref) (face_box : option FaceBox) (s : heap)
    (im : Image RGBA) (w h : Z) (g : TieGeometry) :
  s !! img = Some im -> im_size im = (w, h) ->
  tie_geometry w h face_box = Ok g ->
  draw_tie_on img face_box s = (Ok img, <[img:=paint_tie im g]> s).
Proof.
  intros Hs Hsz Hg. unfold tie_geometry in Hg. bind_ok Hg.
  injection Hg as <-.
  unfold draw_tie_on, paint_tie. cbn [tg_knot tg_blade tg_highlight].
  rewrite (bind_size img im) by assumption. rewrite Hsz.
  rewrite (bind_lift_ok _ _ _ _ E). cbn beta iota.
  rewrite (bind_lift_ok _ _ _ _ E0).
  rewrite (bind_lift_ok _ _ _ _ E1).
  erewrite bind_polygon by eassumption.
  rewrite (bind_lift_ok _ _ _ _ E2).
  erewrite bind_polygon by apply lookup_insert_eq.
  rewrite (bind_lift_ok _ _ _ _ E3).
  erewrite bind_polygon by apply lookup_insert_eq.
  rewrite !insert_insert_eq. reflexivity.
Qed.

(** X3: on an image Pillow can hold, with no face box or one whose top edge
    and height are image coordinates, [draw_tie] raises nothing: it returns an
    image that is the copy of the input with the three polygons of the tie
    geometry painted on it. *)
Lemma draw_tie_returns (s : heap) (l : ref) (im : Image RGBA) (w h : Z)
    (face_box : option FaceBox) :
  s !! l = Some im -> im_size im = (w, h) ->
  0 <= h < max_dim -> face_in_range face_box ->
  exists (g : TieGeometry) (img : ref),
    tie_geometry w h face_box = Ok g
    /\ (draw_tie l face_box s).1 = Ok img
    /\ (draw_tie l face_box s).2 !! img = Some (paint_tie im g).
Proof.
  intros Hs Hsz Hh Hf.
  destruct (tie_geometry_total w h face_box Hh Hf) as [g Hg].
  destruct (draw_tie_run l face_box s im Hs) as (Hrun & _).
  exists g. eexists. split; [exact Hg|]. rewrite Hrun.
  rewrite (draw_tie_on_paints _ face_box _ im w h g);
    [|apply lookup_insert_eq|assumption|assumption].
  cbn [fst snd]. split; [reflexivity|]. apply lookup_insert_eq.
Qed.

(** C4: with no face region the tie is anchored at the horizontal centre
    [w // 2] and at 42% of the image height, the assumed face height is 22% of
    the image height (both rounded down), and the tie is still drawn: the call
    returns an image that is the copy of the input with the three polygons of
    that geometry painted on it. *)
Theorem draw_tie_fallback_anchor
    (s : heap) (image_rgba : ref) (im : Image RGBA) (w h : Z) :
  s !! image_rgba = Some im -> im_size im = (w, h) -> 0 <= h < max_dim ->
  exists (g : TieGeometry) (img : ref),
    tie_geometry w h None = Ok g
    /\ tg_cx g = w / 2
    /\ tg_cy g = 42 * h / 100
    /\ tg_face_height g = 22 * h / 100
    /\ (draw_tie image_rgba None s).1 = Ok img
    /\ (draw_tie image_rgba None s).2 !! img = Some (paint_tie im g).
Proof.
  intros Hs Hsz Hh.
  destruct (tie_geometry_defined w h None (w / 2) (42 * h / 100) (22 * h / 100))
    as (g & Hg & Hcx & Hcy & Hfh).
  - assumption.
  - unfold max_dim in *. Z.div_mod_to_equations. lia.
  - by apply tie_anchor_fallback.
  - destruct (draw_tie_run image_rgba None s im Hs) as (Hrun & _).
    exists g. eexists. repeat (split; [eassumption|]).
    rewrite Hrun.
    rewrite (draw_tie_on_paints _ None _ im w h g);
      [|apply lookup_insert_eq|assumption|assumption].
    cbn [fst snd]. split; [reflexivity|]. apply lookup_insert_eq.
Qed.

End Heap.

(** C5, as the specification states it, fails: the blade length is not a
    proportion of the face height above a fixed pixel minimum, because it is
    not a function of the face height at all.  Two images with the same face
    height 10 and heights 100 and 1000 get blades of 20 and 200 pixels. *)
Lemma blade_length_depends_on_image_height :
  ~ exists f : Z -> Z,
      forall h face_height : Z,
        0 <= h < max_dim -> 0 <= face_height < max_dim ->
        tie_length <$> tie_sizing h face_height = Ok (f face_height).
Proof.
  intros [f Hf].
  pose proof (Hf 100 10 ltac:(unfold max_dim; lia) ltac:(unfold max_dim; lia)) as H1.
  pose proof (Hf 1000 10 ltac:(unfold max_dim; lia) ltac:(unfold max_dim; lia)) as H2.
  vm_compute in H1, H2. congruence.
Qed.

(** C5, amended: for an image height [h] and a face height below [2^31], the
    knot height is [max(12, floor(0.12 * face_height))], hence at least 12
    pixels; the knot width is [max(16, floor(0.16 * face_height))]; the blade
    bottom width is [max(26, floor(1.6 * knot_width))], a proportion of the knot
    width; and the blade length is
    [max(floor(0.20 * h), floor(1.2 * face_height))], whose lower bound is a
    fifth of the image height. *)
Theorem tie_dimensions (h face_height : Z) :
  0 <= h < max_dim -> 0 <= face_height < max_dim ->
  exists sz : TieSizing,
    tie_sizing h face_height = Ok sz
    /\ knot_height sz = Z.max 12 (12 * face_height / 100)
    /\ 12 <= knot_height sz
    /\ knot_width sz = Z.max 16 (16 * face_height / 100)
    /\ tie_bottom_width sz = Z.max 26 (16 * knot_width sz / 10)
    /\ tie_length sz = Z.max (20 * h / 100) (12 * face_height / 10).
Proof.
  intros Hh Hf. eexists. split; [by apply tie_sizing_value|].
  cbn [knot_height knot_width tie_bottom_width tie_length].
  repeat split; lia.
Qed.

Lemma tie_dimensions_witness :
  (0 <= 600 < max_dim /\ 0 <= 170 < max_dim)
  /\ exists sz : TieSizing,
       tie_sizing 600 170 = Ok sz
       /\ knot_height sz = Z.max 12 (12 * 170 / 100)
       /\ 12 <= knot_height sz
       /\ knot_width sz = Z.max 16 (16 * 170 / 100)
       /\ tie_bottom_width sz = Z.max 26 (16 * knot_width sz / 10)
       /\ tie_length sz = Z.max (20 * 600 / 100) (12 * 170 / 10).
Proof.
  assert (H1 : 0 <= 600 < max_dim) by (unfold max_dim; lia).
  assert (H2 : 0 <= 170 < max_dim) by (unfold max_dim; lia).
  split; [split; assumption|]. exact (tie_dimensions 600 170 H1 H2).
Defined.

(** C6: whatever the image and the face region (detected or assumed), the
    tip of the blade, the fourth vertex of the blade polygon, lies at a [y]
    of at most [h - 6]. *)
Theorem blade_tip_clipped (w h : Z) (face_box : option FaceBox) (g : TieGeometry) :
  tie_geometry w h face_box = Ok g ->
  tip_y (tg_blade g) <= h - 6
  /\ blade_points (tg_blade g) !! 3%nat = Some (tg_cx g, tip_y (tg_blade g)).
Proof.
  intros Hg. unfold tie_geometry in Hg. bind_ok Hg. injection Hg as <-.
  cbn [tg_blade tg_cx].
  match goal with E : blade_shape _ _ _ _ = Ok _ |- _ => unfold blade_shape in E; bind_ok E;
    injection E as <- end.
  cbn [tip_y blade_points]. split; [lia|reflexivity].
Qed.

Lemma blade_tip_clipped_witness :
  let face := Some (mkFaceBox 120 90 160 170) in
  exists g,
    tie_geometry 400 600 face = Ok g
    /\ tip_y (tg_blade g) <= 600 - 6
    /\ blade_points (tg_blade g) !! 3%nat = Some (tg_cx g, tip_y (tg_blade g)).
Proof.
  intros face.
  assert (Hg : exists g, tie_geometry 400 600 face = Ok g).
  { eexists. vm_compute. reflexivity. }
  destruct Hg as [g Hg]. exists g. split; [exact Hg|].
  exact (blade_tip_clipped 400 600 face g Hg).
Defined.

(** The clip is effective: on a short image the tip is held at [h - 6]. *)
Example blade_tip_is_clipped_on_short_image :
  (fun g => tip_y (tg_blade g)) <$> tie_geometry 300 120 (Some (mkFaceBox 100 20 90 90))
  = Ok 114.
Proof. vm_compute. reflexivity. Qed.

Lemma draw_tie_fallback_anchor_witness :
  let im := mkImage (400, 600) [] in
  let s : gmap positive (Image RGBA) := {[ 1%positive := im ]} in
  (s !! 1%positive = Some im /\ im_size im = (400, 600) /\ 0 <= 600 < max_dim)
  /\ exists (g : TieGeometry) (img : positive),
       tie_geometry 400 600 None = Ok g
       /\ tg_cx g = 400 / 2
       /\ tg_cy g = 42 * 600 / 100
       /\ tg_face_height g = 22 * 600 / 100
       /\ (@draw_tie simple_pillow 1%positive None s).1 = Ok img
       /\ (@draw_tie simple_pillow 1%positive None s).2 !! img
          = Some (@paint_tie simple_pillow im g).
Proof.
  intros im s.
  assert (H1 : s !! 1%positive = Some im) by reflexivity.
  assert (H2 : im_size im = (400, 600)) by reflexivity.
  assert (H3 : 0 <= 600 < max_dim) by (unfold max_dim; lia).
  split; [auto|].
  exact (@draw_tie_fallback_anchor simple_pillow s 1%positive im 400 600 H1 H2 H3).
Defined.

(** ** Compositing *)

(** A property checked on each of the 256 bytes holds of every byte. *)
Lemma forall_byte (P : Z -> bool) :
  forallb P (seqZ 0 256) = true -> forall z, byte z -> P z = true.
Proof.
  intros Hall z Hz. rewrite forallb_forall in Hall. apply Hall.
  apply list_elem_of_In, elem_of_seqZ. unfold byte in Hz. lia.
Qed.

(** A fully opaque source pixel gives weight [255 * 2^7] to the source and
    none to the destination, and the rounding division returns the source
    byte. *)
Lemma over_channel_opaque (src dst : Z) :
  byte src -> over_channel src dst (255 * 128) 0 = src.
Proof.
  intros Hs. unfold over_channel. rewrite Z.mul_0_r, Z.add_0_r.
  apply Z.eqb_eq.
  apply (forall_byte
           (fun s => Z.shiftr (shift_for_div255 (s * (255 * 128) + Z.shiftl 128 7)) 7
                     mod 256 =? s));
    [vm_compute; reflexivity|assumption].
Qed.

Lemma over_opaque (dst src : RGBA) :
  rgba_bytes src -> alpha src = 255 -> rgb_of (over dst src) = rgb_of src.
Proof.
  intros (Hr & Hg & Hb & _) Ha. unfold over. rewrite Ha.
  change (255 =? 0) with false. cbn match.
  replace (alpha dst * (255 - 255)) with 0 by lia.
  change (255 * 255 * 255 * Z.shiftl 1 7 / (255 * 255 + 0)) with (255 * 128).
  change (255 * Z.shiftl 1 7 - 255 * 128) with 0.
  unfold rgb_of. cbn [red green blue].
  by rewrite !over_channel_opaque.
Qed.

Lemma pixel_alpha_composite (dst src out : Image RGBA) (x y : nat) :
  alpha_composite dst src = Ok out ->
  pixel out x y = (q ← pixel dst x y; p ← pixel src x y; Some (over q p)).
Proof.
  unfold alpha_composite. case_decide; [|discriminate]. intros [= <-].
  unfold pixel. cbn [im_rows]. rewrite lookup_zip_with.
  destruct (im_rows dst !! y) as [rd|]; [|reflexivity]. cbn.
  destruct (im_rows src !! y) as [rs|]; cbn.
  - rewrite lookup_zip_with. reflexivity.
  - by destruct (rd !! x).
Qed.

Section Compose.
Context `{Pillow}.

(** C1: provided resampling delivers the size it is asked for, the composite
    exists, and at every pixel where the subject (resized to the background's
    dimensions if the sizes differ) has alpha 255, the composite has the
    subject's red, green and blue values, whatever the background. *)
Theorem compose_keeps_opaque_subject (subject_rgba background_rgba : Image RGBA) :
  (forall im size, im_size (resize im size) = size) ->
  exists composed,
    compose_subject_on_background subject_rgba background_rgba = Ok composed
    /\ forall (x y : nat) (p q : RGBA),
         pixel (reconcile_size subject_rgba background_rgba) x y = Some p ->
         pixel background_rgba x y = Some q ->
         rgba_bytes p -> alpha p = 255 ->
         exists o, pixel composed x y = Some o /\ rgb_of o = rgb_of p.
Proof.
  intros Hresize.
  assert (Hsize : im_size background_rgba
                  = im_size (reconcile_size subject_rgba background_rgba)).
  { unfold reconcile_size. case_decide as Hd.
    - by rewrite Hresize.
    - destruct (decide (im_size subject_rgba = im_size background_rgba)); congruence. }
  unfold compose_subject_on_background.
  destruct (alpha_composite background_rgba
              (reconcile_size subject_rgba background_rgba)) as [out|e] eqn:Hc.
  - exists out. split; [reflexivity|]. intros x y p q Hp Hq Hbytes Ha.
    rewrite (pixel_alpha_composite _ _ _ _ _ Hc), Hq, Hp. cbn.
    eexists. split; [reflexivity|]. by apply over_opaque.
  - unfold alpha_composite in Hc. by case_decide.
Qed.

End Compose.

Lemma compose_keeps_opaque_subject_witness :
  let subject := mkImage (1, 1) [[mkRGBA 200 100 50 255]] in
  let background := mkImage (1, 1) [[mkRGBA 234 243 255 255]] in
  (forall im size, im_size (@resize simple_pillow im size) = size)
  /\ exists composed,
       @compose_subject_on_background simple_pillow subject background = Ok composed
       /\ forall (x y : nat) (p q : RGBA),
            pixel (@reconcile_size simple_pillow subject background) x y = Some p ->
            pixel background x y = Some q ->
            rgba_bytes p -> alpha p = 255 ->
            exists o, pixel composed x y = Some o /\ rgb_of o = rgb_of p.
Proof.
  intros subject background.
  assert (Hr : forall im size, im_size (@resize simple_pillow im size) = size)
    by (intros im size; reflexivity).
  split; [exact Hr|].
  exact (@compose_keeps_opaque_subject simple_pillow subject background Hr).
Defined.

(** The composite of the witness, evaluated: the opaque subject pixel stays. *)
Example compose_opaque_pixel :
  @compose_subject_on_background simple_pillow
    (mkImage (1, 1) [[mkRGBA 200 100 50 255]])
    (mkImage (1, 1) [[mkRGBA 234 243 255 255]])
  = Ok (mkImage (1, 1) [[mkRGBA 200 100 50 255]]).
Proof. vm_compute. reflexivity. Qed.

(** ** Face detection *)

Lemma max_by_spec {A : Type} (key : A -> Z) (best : A) (rest : list A) :
  max_by key best rest ∈ best :: rest
  /\ forall f, f ∈ best :: rest -> key f <= key (max_by key best rest).
Proof.
  revert best. induction rest as [|x rest IH]; intros best; cbn [max_by].
  - split; [left|]. intros f Hf. apply list_elem_of_singleton in Hf as ->. lia.
  - destruct (key best <? key x) eqn:Hlt.
    + apply Z.ltb_lt in Hlt. destruct (IH x) as [Hin Hmax]. split; [by right|].
      assert (Hx : key x <= key (max_by key x rest)) by (apply Hmax; left).
      intros f Hf. apply elem_of_cons in Hf as [->|Hf]; [lia|by apply Hmax].
    + apply Z.ltb_ge in Hlt. destruct (IH best) as [Hin Hmax].
      assert (Hb : key best <= key (max_by key best rest)) by (apply Hmax; left).
      split.
      * apply elem_of_cons in Hin as [->|Hin]; [left|right; by right].
      * intros f Hf. apply elem_of_cons in Hf as [->|Hf]; [exact Hb|].
        apply elem_of_cons in Hf as [->|Hf]; [lia|]. apply Hmax. by right.
Qed.

Lemma box_area_key_exact (f : Z * Z * Z * Z) : area_fits f -> box_area_key f = box_area f.
Proof.
  destruct f as [[[x y] w] h]. cbn. intros (Hw & Hh & Hlt).
  unfold Np.int32_mul, Np.wrap32.
  assert (0 <= w * h) by (apply Z.mul_nonneg_nonneg; assumption).
  rewrite Z.mod_small; lia.
Qed.

Section Detect.
Context `{OpenCV}.

(** C3: the detector is run with a minimum face size of 80 by 80; when it
    finds no face the result is [None], and when it finds faces the result is
    one of them whose area [w * h] no other detected face exceeds.  The areas
    are assumed to fit the [int32] the detector's rows are made of. *)
Theorem detect_primary_face_bbox_largest (image_rgb : Image RGB) :
  let faces :=
    detectMultiScale "haarcascade_frontalface_default.xml"
      (cvtColor_RGB2GRAY (im_rows image_rgb)) (Py.literal 11 10) 5
      CASCADE_SCALE_IMAGE (80, 80) in
  Forall area_fits faces ->
  (faces = [] -> detect_primary_face_bbox image_rgb = None)
  /\ (faces <> [] ->
      exists fb : FaceBox,
        detect_primary_face_bbox image_rgb = Some fb
        /\ (fb_x fb, fb_y fb, fb_width fb, fb_height fb) ∈ faces
        /\ forall f, f ∈ faces -> box_area f <= fb_width fb * fb_height fb).
Proof.
  intros faces Hfit. unfold detect_primary_face_bbox.
  change min_face_size with (80, 80). fold faces.
  destruct faces as [|f rest] eqn:Hfaces; split; try done.
  intros _. destruct (max_by_spec box_area_key f rest) as [Hin Hmax].
  destruct (max_by box_area_key f rest) as [[[x y] w] h] eqn:Hbest.
  exists (mkFaceBox x y w h). split; [reflexivity|]. split; [exact Hin|].
  intros g Hg. cbn [fb_width fb_height].
  rewrite Forall_forall in Hfit.
  specialize (Hmax g Hg). rewrite !box_area_key_exact in Hmax by auto.
  exact Hmax.
Qed.

End Detect.

Lemma detect_primary_face_bbox_largest_witness :
  let found := [(10, 10, 80, 80); (200, 50, 120, 120); (5, 5, 100, 100)] in
  let image := mkImage (0, 0) [] in
  Forall area_fits found
  /\ (found = [] -> @detect_primary_face_bbox (simple_opencv found) image = None)
  /\ (found <> [] ->
      exists fb : FaceBox,
        @detect_primary_face_bbox (simple_opencv found) image = Some fb
        /\ (fb_x fb, fb_y fb, fb_width fb, fb_height fb) ∈ found
        /\ forall f, f ∈ found -> box_area f <= fb_width fb * fb_height fb).
Proof.
  intros found image.
  assert (Hfit : Forall area_fits found).
  { repeat constructor; cbn; lia. }
  split; [exact Hfit|].
  exact (@detect_primary_face_bbox_largest (simple_opencv found) image Hfit).
Defined.

Example detect_picks_largest :
  @detect_primary_face_bbox
    (simple_opencv [(10, 10, 80, 80); (200, 50, 120, 120); (5, 5, 100, 100)])
    (mkImage (0, 0) [])
  = Some (mkFaceBox 200 50 120 120).
Proof. reflexivity. Qed.

Example detect_none :
  @detect_primary_face_bbox (simple_opencv []) (mkImage (0, 0) []) = None.
Proof. reflexivity. Qed.

(** ** Background keying *)

(** The feathered mask survives the round trip through [float32]:
    [(m / 255.0) * 255] truncates back to [m] for every byte. *)
Lemma alpha_of_mask_byte (m : Z) : byte m -> alpha_of_mask m = m.
Proof.
  intros Hm. apply Z.eqb_eq.
  apply (forall_byte (fun m => alpha_of_mask m =? m)); [vm_compute; reflexivity|assumption].
Qed.

Lemma rgb_of_with_alpha (p : RGB) (a : Z) : rgb_of (with_alpha p a) = p.
Proof. by destruct p. Qed.

Lemma dstack_row_spec (rgb : list RGB) (a : list Z) :
  List.length rgb = List.length a ->
  exists row, dstack_row rgb a = Ok row
              /\ map rgb_of row = rgb /\ map alpha row = a.
Proof.
  revert a. induction rgb as [|p rgb IH]; intros [|x a] Hlen; try discriminate.
  - by exists [].
  - destruct (IH a) as (row & Hrow & Hrgb & Ha); [by injection Hlen|].
    exists (with_alpha p x :: row). cbn [dstack_row]. rewrite Hrow. cbn.
    by rewrite rgb_of_with_alpha, Hrgb, Ha.
Qed.

Lemma dstack_spec (rgb : list (list RGB)) (a : list (list Z)) :
  same_shape rgb a ->
  exists rows, dstack rgb a = Ok rows
               /\ map (map rgb_of) rows = rgb /\ map (map alpha) rows = a.
Proof.
  unfold same_shape. revert a.
  induction rgb as [|r rgb IH]; intros [|x a] Hshape; try discriminate.
  - by exists [].
  - cbn in Hshape. injection Hshape as Hlen Hrest.
    destruct (dstack_row_spec r x Hlen) as (row & Hrow & Hrgb & Ha).
    destruct (IH a Hrest) as (rows & Hrows & Hrgbs & Has).
    exists (row :: rows). cbn [dstack]. rewrite Hrow. cbn. rewrite Hrows. cbn.
    by rewrite Hrgb, Ha, Hrgbs, Has.
Qed.

Lemma map_map_id_on {A : Type} (f : A -> A) (P : A -> Prop) (a : list (list A)) :
  (forall x, P x -> f x = x) -> Forall (Forall P) a -> map (map f) a = a.
Proof.
  intros Hf Ha. induction Ha as [|row a Hrow _ IH]; [reflexivity|].
  cbn. rewrite IH. f_equal.
  induction Hrow as [|x row Hx _ IHrow]; [reflexivity|].
  cbn. by rewrite IHrow, Hf.
Qed.

Section Keying.
Context `{OpenCV}.

(** C8: when the OpenCV filters deliver a byte mask of the image's shape, the
    subject image exists, has the size of the input, its red, green and blue
    planes are the input's, pixel for pixel, and its alpha plane is the
    feathered subject mask. *)
Theorem remove_background_keeps_rgb (image : Image RGB) :
  same_shape (im_rows image) (subject_mask image) ->
  Forall (Forall byte) (subject_mask image) ->
  exists subject : Image RGBA,
    remove_background_keep_subject image = Ok subject
    /\ im_size subject = im_size image
    /\ map (map rgb_of) (im_rows subject) = im_rows image
    /\ map (map alpha) (im_rows subject) = subject_mask image.
Proof.
  intros Hshape Hbytes. unfold remove_background_keep_subject.
  destruct (dstack_spec (im_rows image) (map (map alpha_of_mask) (subject_mask image)))
    as (rows & -> & Hrgb & Ha).
  - unfold same_shape in *. rewrite Hshape, <- list_fmap_compose.
    apply list_fmap_ext. intros _ row _. cbn. by rewrite length_map.
  - eexists. split; [reflexivity|]. cbn [im_size im_rows].
    repeat split; [exact Hrgb|]. rewrite Ha.
    apply (map_map_id_on alpha_of_mask byte); [apply alpha_of_mask_byte|exact Hbytes].
Qed.

End Keying.

Lemma remove_background_keeps_rgb_witness :
  let image := mkImage (2, 1) [[mkRGB 200 200 5; mkRGB 40 90 160]] in
  (same_shape (im_rows image) (@subject_mask (simple_opencv []) image)
   /\ Forall (Forall byte) (@subject_mask (simple_opencv []) image))
  /\ exists subject : Image RGBA,
       @remove_background_keep_subject (simple_opencv []) image = Ok subject
       /\ im_size subject = im_size image
       /\ map (map rgb_of) (im_rows subject) = im_rows image
       /\ map (map alpha) (im_rows subject) = @subject_mask (simple_opencv []) image.
Proof.
  intros image.
  assert (Hmask : @subject_mask (simple_opencv []) image = [[0; 255]])
    by (vm_compute; reflexivity).
  assert (H1 : same_shape (im_rows image) (@subject_mask (simple_opencv []) image))
    by (rewrite Hmask; reflexivity).
  assert (H2 : Forall (Forall byte) (@subject_mask (simple_opencv []) image)).
  { rewrite Hmask. repeat constructor; unfold byte; lia. }
  split; [split; assumption|].
  exact (@remove_background_keeps_rgb (simple_opencv []) image H1 H2).
Defined.

Example remove_background_runs :
  @remove_background_keep_subject (simple_opencv [])
    (mkImage (2, 1) [[mkRGB 200 200 5; mkRGB 40 90 160]])
  = Ok (mkImage (2, 1) [[mkRGBA 200 200 5 0; mkRGBA 40 90 160 255]]).
Proof. vm_compute. reflexivity. Qed.

(** ** The gradient *)

(** At [t = 0] the blend is the top byte, at [t = 1] the bottom byte. *)
Lemma blend_weightless (a : Z) :
  byte a -> Np.mul (Np.of_float f64_zero) (Np.of_Z a) = S754_zero false.
Proof.
  intros Ha.
  assert (Hz : is_pos_zero (Np.mul (Np.of_float f64_zero) (Np.of_Z a)) = true).
  { apply (forall_byte (fun a => is_pos_zero (Np.mul (Np.of_float f64_zero) (Np.of_Z a))));
      [vm_compute; reflexivity|assumption]. }
  destruct (Np.mul _ _) as [[|]| | |]; try discriminate. reflexivity.
Qed.

Lemma blend_channel_top (a b : Z) :
  byte a -> byte b -> blend_channel f64_one f64_zero (Np.of_Z a) (Np.of_Z b) = a.
Proof.
  intros Ha Hb. unfold blend_channel. rewrite (blend_weightless b Hb).
  apply Z.eqb_eq.
  apply (forall_byte
           (fun a => Np.to_uint8 (Np.add (Np.mul (Np.of_float f64_one) (Np.of_Z a))
                                         (S754_zero false)) =? a));
    [vm_compute; reflexivity|assumption].
Qed.


Lemma byte_255 : byte 255.
Proof. unfold byte. lia. Qed.

Lemma blend_colors_top (top bottom : Color) :
  color_bytes top -> color_bytes bottom ->
  pixel_of_channels
    (zip_with (blend_channel f64_one f64_zero) (color_array top) (color_array bottom))
  = with_alpha top 255.
Proof.
  intros (Hr & Hg & Hb) (Hr' & Hg' & Hb'). unfold color_array. cbn [zip_with].
  rewrite !blend_channel_top by (assumption || apply byte_255). reflexivity.
Qed.


(** C9: for [height = 1] the divisor [max(1, height - 1)] is 1, the division
    [0 / 1] is defined and gives [t = 0], and the image is returned: its
    single row has the top colour, fully opaque, in each of its [width]
    columns. *)
Theorem gradient_height_one (width : Z) (top_color bottom_color : Color) :
  0 <= width -> color_bytes top_color -> color_bytes bottom_color ->
  Z.max 1 (1 - 1) = 1
  /\ Py.truediv 0 (Z.max 1 (1 - 1)) = Ok f64_zero
  /\ generate_linkedin_gradient_background width 1 top_color bottom_color
     = Ok (mkImage (width, 1) [replicate (Z.to_nat width) (with_alpha top_color 255)]).
Proof.
  intros Hw Ht Hb. split; [reflexivity|]. split; [reflexivity|].
  unfold generate_linkedin_gradient_background.
  replace (width <? 0) with false by (symmetry; apply Z.ltb_ge; lia).
  change (seqZ 0 1) with [0]. cbn [orb Z.ltb Z.compare mapM].
  unfold gradient_row_color.
  change (Py.truediv 0 (Z.max 1 (1 - 1))) with (Ok f64_zero).
  cbn [mbind result_bind].
  change (Py.int_sub_float 1 f64_zero) with (Ok f64_one).
  cbn [mbind result_bind].
  by rewrite blend_colors_top.
Qed.

Lemma gradient_height_one_witness :
  (0 <= 3 /\ color_bytes default_top_color /\ color_bytes default_bottom_color)
  /\ Z.max 1 (1 - 1) = 1
  /\ Py.truediv 0 (Z.max 1 (1 - 1)) = Ok f64_zero
  /\ generate_linkedin_gradient_background 3 1 default_top_color default_bottom_color
     = Ok (mkImage (3, 1)
             [replicate (Z.to_nat 3) (with_alpha default_top_color 255)]).
Proof.
  assert (H0 : 0 <= 3) by lia.
  assert (H1 : color_bytes default_top_color) by (repeat split; cbn; lia).
  assert (H2 : color_bytes default_bottom_color) by (repeat split; cbn; lia).
  split; [auto|].
  exact (gradient_height_one 3 default_top_color default_bottom_color H0 H1 H2).
Defined.














(** C2, at height 15 with the default colours: the image is returned, its first
    row is the top colour and its last row the bottom colour, but the blue
    channel, 255 at both ends, reads 254 in rows 3 and 11.  In [float32],
    [(1 - t) * 255 + t * 255] falls just below 255 there and the conversion
    to a byte truncates, so the channel is not monotone from row to row. *)
Theorem gradient_blue_channel_not_monotone :
  exists im : Image RGBA,
    generate_linkedin_gradient_background 1 15 default_top_color default_bottom_color
    = Ok im
    /\ head (im_rows im) = Some [with_alpha default_top_color 255]
    /\ last (im_rows im) = Some [with_alpha default_bottom_color 255]
    /\ channel_column blue im
       = [255; 255; 255; 254; 255; 255; 255; 255; 255; 255; 255; 254; 255; 255; 255]
    /\ ~ monotone (channel_column blue im).
Proof.
  eexists. split; [vm_compute; reflexivity|].
  split; [reflexivity|]. split; [reflexivity|]. split; [reflexivity|].
  intros [Hup|Hdown].
  - specialize (Hup 2%nat 3%nat 255 254 ltac:(lia) eq_refl eq_refl). lia.
  - specialize (Hdown 3%nat 4%nat 254 255 ltac:(lia) eq_refl eq_refl). lia.
Qed.

(** ** The resize target *)

(** C7, on a square image of 4900 by 4900 pixels and [--width 100]: the
    proportional height is exactly 100, yet the target height is 99.  The
    ratio [100 / 4900] is rounded to binary64, its product with 4900 falls
    just below 100, and [int] truncates. *)
Theorem resize_target_loses_a_row :
  resize_target 4900 4900 (Some 100) None = Ok (Some (100, 99))
  /\ 4900 * 100 / 4900 = 100.
Proof. split; [vm_compute; reflexivity|reflexivity]. Qed.

(** The same slip with only [--height] given. *)
Example resize_target_loses_a_column :
  resize_target 4900 4900 None (Some 100) = Ok (Some (99, 100)).
Proof. vm_compute. reflexivity. Qed.

(** Where the ratio is a binary fraction the target is the exact proportion. *)
Example resize_target_half :
  resize_target 1000 750 (Some 500) None = Ok (Some (500, 375)).
Proof. vm_compute. reflexivity. Qed.

(** * Further properties *)

(** ** The gradient, for every size *)







(** ** [draw_tie] returns *)

Lemma draw_tie_returns_witness :
  let im := mkImage (400, 600) [] in
  let s : gmap positive (Image RGBA) := {[ 1%positive := im ]} in
  let face := Some (mkFaceBox 120 90 160 170) in
  (s !! 1%positive = Some im /\ im_size im = (400, 600)
   /\ 0 <= 600 < max_dim /\ face_in_range face)
  /\ exists (g : TieGeometry) (img : positive),
       tie_geometry 400 600 face = Ok g
       /\ (@draw_tie simple_pillow 1%positive face s).1 = Ok img
       /\ (@draw_tie simple_pillow 1%positive face s).2 !! img
          = Some (@paint_tie simple_pillow im g).
Proof.
  intros im s face.
  assert (H1 : s !! 1%positive = Some im) by reflexivity.
  assert (H2 : im_size im = (400, 600)) by reflexivity.
  assert (H3 : 0 <= 600 < max_dim) by (unfold max_dim; lia).
  assert (H4 : face_in_range face) by (cbn; unfold max_dim; lia).
  split; [auto|].
  exact (@draw_tie_returns simple_pillow s 1%positive im 400 600 face H1 H2 H3 H4).
Defined.

(** ** Compositing: transparent pixels and opaque backgrounds *)

Lemma compose_is_alpha_composite `{Pillow} (subject background composed : Image RGBA) :
  compose_subject_on_background subject background = Ok composed ->
  alpha_composite background (reconcile_size subject background) = Ok composed.
Proof. done. Qed.

Lemma alpha_composite_size (dst src out : Image RGBA) :
  alpha_composite dst src = Ok out -> im_size out = im_size dst /\ im_size src = im_size dst.
Proof.
  unfold alpha_composite. case_decide; [|discriminate]. intros [= <-]. by split.
Qed.

Section ComposeMore.
Context `{Pillow}.

(** X4: whenever the composite is returned it has the background's size, and
    at every pixel where the subject (resized if the sizes differ) is fully
    transparent the composite is the background pixel, all four channels
    unchanged. *)
Theorem compose_shows_background_where_transparent
    (subject_rgba background_rgba composed : Image RGBA) :
  compose_subject_on_background subject_rgba background_rgba = Ok composed ->
  im_size composed = im_size background_rgba
  /\ forall (x y : nat) (p q : RGBA),
       pixel (reconcile_size subject_rgba background_rgba) x y = Some p ->
       pixel background_rgba x y = Some q ->
       alpha p = 0 ->
       pixel composed x y = Some q.
Proof.
  intros Hc. apply compose_is_alpha_composite in Hc.
  split; [by apply alpha_composite_size in Hc as [? _]|].
  intros x y p q Hp Hq Ha.
  rewrite (pixel_alpha_composite _ _ _ _ _ Hc), Hq, Hp. cbn.
  unfold over. by rewrite Ha.
Qed.

(** X5: over a fully opaque background pixel the composite is fully opaque,
    whatever the subject's alpha. *)
Theorem compose_over_opaque_background_is_opaque
    (subject_rgba background_rgba composed : Image RGBA) (x y : nat) (p q : RGBA) :
  compose_subject_on_background subject_rgba background_rgba = Ok composed ->
  pixel (reconcile_size subject_rgba background_rgba) x y = Some p ->
  pixel background_rgba x y = Some q ->
  byte (alpha p) -> alpha q = 255 ->
  exists o, pixel composed x y = Some o /\ alpha o = 255.
Proof.
  intros Hc Hp Hq Hb Ha. apply compose_is_alpha_composite in Hc.
  rewrite (pixel_alpha_composite _ _ _ _ _ Hc), Hq, Hp. cbn.
  eexists. split; [reflexivity|]. unfold over.
  destruct (alpha p =? 0); [assumption|]. cbn [alpha]. rewrite Ha.
  replace (alpha p * 255 + 255 * (255 - alpha p)) with (255 * 255) by lia.
  reflexivity.
Qed.

End ComposeMore.

Lemma compose_shows_background_where_transparent_witness :
  let subject := mkImage (2, 1) [[mkRGBA 200 100 50 0; mkRGBA 9 8 7 255]] in
  let background := mkImage (2, 1) [[mkRGBA 234 243 255 255; mkRGBA 230 241 255 255]] in
  let composed := mkImage (2, 1) [[mkRGBA 234 243 255 255; mkRGBA 9 8 7 255]] in
  @compose_subject_on_background simple_pillow subject background = Ok composed
  /\ im_size composed = im_size background
  /\ forall (x y : nat) (p q : RGBA),
       pixel (@reconcile_size simple_pillow subject background) x y = Some p ->
       pixel background x y = Some q ->
       alpha p = 0 ->
       pixel composed x y = Some q.
Proof.
  intros subject background composed.
  assert (Hc : @compose_subject_on_background simple_pillow subject background = Ok composed)
    by (vm_compute; reflexivity).
  split; [exact Hc|].
  exact (@compose_shows_background_where_transparent simple_pillow
           subject background composed Hc).
Defined.

Lemma compose_over_opaque_background_is_opaque_witness :
  let subject := mkImage (1, 1) [[mkRGBA 200 100 50 128]] in
  let background := mkImage (1, 1) [[mkRGBA 234 243 255 255]] in
  let composed := mkImage (1, 1) [[mkRGBA 217 171 152 255]] in
  (@compose_subject_on_background simple_pillow subject background = Ok composed
   /\ pixel (@reconcile_size simple_pillow subject background) 0 0
      = Some (mkRGBA 200 100 50 128)
   /\ pixel background 0 0 = Some (mkRGBA 234 243 255 255)
   /\ byte 128 /\ 255 = 255)
  /\ exists o, pixel composed 0 0 = Some o /\ alpha o = 255.
Proof.
  intros subject background composed.
  assert (Hc : @compose_subject_on_background simple_pillow subject background = Ok composed)
    by (vm_compute; reflexivity).
  assert (Hp : pixel (@reconcile_size simple_pillow subject background) 0 0
               = Some (mkRGBA 200 100 50 128)) by reflexivity.
  assert (Hq : pixel background 0 0 = Some (mkRGBA 234 243 255 255)) by reflexivity.
  assert (Hb : byte 128) by (unfold byte; lia).
  split; [auto|].
  exact (@compose_over_opaque_background_is_opaque simple_pillow subject background composed
           0 0 (mkRGBA 200 100 50 128) (mkRGBA 234 243 255 255) Hc Hp Hq Hb eq_refl).
Defined.

(** ** Face detection: ties *)

(** [max] keeps the first of several elements with the greatest key. *)
Lemma max_by_first {A : Type} (key : A -> Z) (best : A) (rest : list A) :
  exists i : nat,
    (best :: rest) !! i = Some (max_by key best rest)
    /\ forall (j : nat) (g : A),
         (j < i)%nat -> (best :: rest) !! j = Some g ->
         key g < key (max_by key best rest).
Proof.
  revert best. induction rest as [|x rest IH]; intros best; cbn [max_by].
  - exists 0%nat. split; [reflexivity|]. intros j g Hj. lia.
  - destruct (key best <? key x) eqn:Hlt.
    + apply Z.ltb_lt in Hlt. destruct (IH x) as (i & Hi & Hbefore).
      destruct (max_by_spec key x rest) as [_ Hmax].
      assert (Hx : key x <= key (max_by key x rest)) by (apply Hmax; left).
      exists (S i). split; [exact Hi|].
      intros [|j] g Hj Hg.
      * injection Hg as <-. lia.
      * apply (Hbefore j); [lia|exact Hg].
    + apply Z.ltb_ge in Hlt. destruct (IH best) as (i & Hi & Hbefore).
      destruct i as [|i].
      * exists 0%nat. split; [exact Hi|]. intros j g Hj. lia.
      * exists (S (S i)). split; [exact Hi|].
        assert (Hb : key best < key (max_by key best rest))
          by (apply (Hbefore 0%nat); [lia|reflexivity]).
        intros [|[|j]] g Hj Hg.
        -- injection Hg as <-. exact Hb.
        -- injection Hg as <-. lia.
        -- apply (Hbefore (S j)); [lia|exact Hg].
Qed.

Section DetectMore.
Context `{OpenCV}.

(** X6: among several faces of the same greatest area the detector's first
    one is returned: every face the detector lists before the returned one has
    a strictly smaller area. *)
Theorem detect_primary_face_bbox_first_of_largest (image_rgb : Image RGB) (fb : FaceBox) :
  let faces :=
    detectMultiScale "haarcascade_frontalface_default.xml"
      (cvtColor_RGB2GRAY (im_rows image_rgb)) (Py.literal 11 10) 5
      CASCADE_SCALE_IMAGE (80, 80) in
  Forall area_fits faces ->
  detect_primary_face_bbox image_rgb = Some fb ->
  exists i : nat,
    faces !! i = Some (fb_x fb, fb_y fb, fb_width fb, fb_height fb)
    /\ forall (j : nat) (g : Z * Z * Z * Z),
         (j < i)%nat -> faces !! j = Some g -> box_area g < fb_width fb * fb_height fb.
Proof.
  intros faces Hfit. unfold detect_primary_face_bbox.
  change min_face_size with (80, 80). fold faces.
  destruct faces as [|f rest] eqn:Hfaces; [discriminate|].
  destruct (max_by_first box_area_key f rest) as (i & Hi & Hbefore).
  destruct (max_by_spec box_area_key f rest) as [Hin _].
  destruct (max_by box_area_key f rest) as [[[x y] w] h] eqn:Hbest.
  intros [= <-]. cbn [fb_x fb_y fb_width fb_height].
  exists i. split; [exact Hi|]. intros j g Hj Hg.
  rewrite Forall_forall in Hfit.
  specialize (Hbefore j g Hj Hg).
  rewrite !box_area_key_exact in Hbefore.
  - exact Hbefore.
  - by apply Hfit.
  - apply Hfit. by apply list_elem_of_lookup_2 in Hg.
Qed.

End DetectMore.

Lemma detect_primary_face_bbox_first_of_largest_witness :
  let found := [(10, 10, 80, 80); (200, 50, 120, 120); (5, 5, 100, 144)] in
  let image := mkImage (0, 0) [] in
  let fb := mkFaceBox 200 50 120 120 in
  (Forall area_fits found
   /\ @detect_primary_face_bbox (simple_opencv found) image = Some fb)
  /\ exists i : nat,
       found !! i = Some (fb_x fb, fb_y fb, fb_width fb, fb_height fb)
       /\ forall (j : nat) (g : Z * Z * Z * Z),
            (j < i)%nat -> found !! j = Some g -> box_area g < fb_width fb * fb_height fb.
Proof.
  intros found image fb.
  assert (Hfit : Forall area_fits found) by (repeat constructor; cbn; lia).
  assert (Hd : @detect_primary_face_bbox (simple_opencv found) image = Some fb)
    by reflexivity.
  split; [auto|].
  exact (@detect_primary_face_bbox_first_of_largest (simple_opencv found) image fb Hfit Hd).
Defined.

(** ** Products that may fall one short of the floor *)

Lemma floor_lower_loose (n K P G c q p v M2 T B : Z) :
  0 < q -> 0 < n < B -> 0 < K -> 0 < P -> 0 < G -> 0 < c -> 0 < T ->
  2 * (n * K * c) <= 2 * (M2 * P) + P ->
  q * v + q <= p * n ->
  T * P = K * G ->
  B * (p * G - q * c) <= q * G ->
  v * T <= M2.
Proof.
  intros Hq Hn HK HP HG Hc HT Herr Hv HTP Hlow.
  destruct (Z.le_gt_cases (v * T) M2) as [|Hlt]; [assumption|exfalso].
  set (W := n * K) in *.
  assert (HW : 0 < W) by (apply Z.mul_pos_pos; lia).
  assert (E1 : (M2 + 1) * P <= v * (K * G)).
  { rewrite <- HTP, Z.mul_assoc. apply Z.mul_le_mono_nonneg_r; lia. }
  assert (E2 : (q * v + q) * (K * G) <= p * n * (K * G)).
  { apply Z.mul_le_mono_nonneg_r; [|assumption]. apply Z.mul_nonneg_nonneg; lia. }
  set (d := p * G - q * c) in *.
  assert (E3 : q * P <= 2 * (K * (n * d - q * G))).
  { assert (P <= 2 * (v * (K * G)) - 2 * (W * c)) by lia.
    assert (q * P <= q * (2 * (v * (K * G)) - 2 * (W * c)))
      by (apply Z.mul_le_mono_nonneg_l; lia).
    replace (2 * (K * (n * d - q * G)))
      with (2 * (p * n * (K * G)) - 2 * (q * (K * G)) - q * (2 * (W * c)))
      by (unfold d, W; ring).
    replace (q * (2 * (v * (K * G)) - 2 * (W * c)))
      with (2 * ((q * v + q) * (K * G)) - 2 * (q * (K * G)) - q * (2 * (W * c)))
      in * by ring.
    lia. }
  assert (HqP : 0 < q * P) by (apply Z.mul_pos_pos; assumption).
  assert (E4 : n * d <= q * G).
  { destruct (Z.le_gt_cases d 0) as [Hd|Hd].
    - assert (n * d <= 0) by (apply Z.mul_nonneg_nonpos; lia).
      assert (0 < q * G) by (apply Z.mul_pos_pos; lia). lia.
    - assert (n * d <= B * d) by (apply Z.mul_le_mono_nonneg_r; lia). lia. }
  assert (E5 : K * (n * d - q * G) <= 0) by (apply Z.mul_nonneg_nonpos; lia).
  lia.
Qed.

Lemma int_scaled_near (mc : positive) (ec p q B n : Z) :
  scale_near_cond mc ec p q B = true ->
  0 <= n < B ->
  exists z, Py.int_scaled n (S754_finite false mc ec) = Ok z
            /\ p * n / q - 1 <= z <= p * n / q.
Proof.
  unfold scale_near_cond. intros Hc Hn.
  repeat (apply andb_prop in Hc; destruct Hc as [Hc ?]).
  repeat match goal with
         | H : (_ =? _) = true |- _ => apply Z.eqb_eq in H
         | H : (_ <=? _) = true |- _ => apply Z.leb_le in H
         | H : (_ <? _) = true |- _ => apply Z.ltb_lt in H
         end.
  match goal with H : _ * _ <= _ * 2 ^ _ |- _ => rename H into Hlow end.
  match goal with H : _ < (2 ^ 53 - 1) * _ |- _ => rename H into Hup end.
  set (G := 2 ^ (- ec)) in *.
  unfold Py.int_scaled, Py.int_mul_float, Py.float_of_int.
  destruct (Z.eq_dec n 0) as [->|Hn0].
  { exists 0. rewrite Z.mul_0_r, Z.div_0_l by lia. split; [reflexivity|lia]. }
  destruct (of_Z_normal n) as (mh & k & -> & Hk & Hmh & Hdh); [lia|].
  cbn [mbind result_bind]. unfold Py.mul, Py.prec, Py.emax.
  destruct (SFmul64_spec mh mc (- k) ec) as (m2 & D & -> & HD & Hm2 & Herr);
    [assumption|assumption|lia|].
  cbn [Py.int cond_Zopp].
  assert (HG : 0 < G) by (apply Z.pow_pos_nonneg; lia).
  assert (HK : 0 < 2 ^ k) by (apply Z.pow_pos_nonneg; lia).
  assert (HP : 0 < 2 ^ D) by (apply Z.pow_pos_nonneg; lia).
  rewrite Hmh in Herr.
  assert (Herr' : 2 * (Z.pos m2 * 2 ^ D) - 2 ^ D <= 2 * (n * 2 ^ k * Z.pos mc)
                  <= 2 * (Z.pos m2 * 2 ^ D) + 2 ^ D) by lia.
  clear Herr. destruct Herr' as [Herr1 Herr2].
  assert (HPKG : 2 ^ D < 2 ^ k * G).
  { eapply (shift_below_point n (2 ^ k) (2 ^ D) G (Z.pos mc) q B _ (Z.pos m2));
      try eassumption; lia. }
  assert (HDlt : D < k - ec).
  { apply (Z.pow_lt_mono_r_iff 2); [lia|lia|].
    unfold G in HPKG. rewrite <- Z.pow_add_r in HPKG by lia.
    replace (k - ec) with (k + - ec) by lia. exact HPKG. }
  replace (0 <=? - k + ec + D) with false by (symmetry; apply Z.leb_gt; lia).
  set (T := 2 ^ (- (- k + ec + D))).
  assert (HT : 0 < T) by (apply Z.pow_pos_nonneg; lia).
  assert (HTP : T * 2 ^ D = 2 ^ k * G).
  { unfold T, G. rewrite <- !Z.pow_add_r by lia. f_equal. lia. }
  set (v := p * n / q).
  assert (Hv : q * v <= p * n < q * v + q).
  { pose proof (Z.div_mod (p * n) q ltac:(lia)).
    pose proof (Z.mod_pos_bound (p * n) q ltac:(lia)). unfold v. lia. }
  assert (Hlo : (v - 1) * T <= Z.pos m2).
  { eapply (floor_lower_loose n (2 ^ k) (2 ^ D) G (Z.pos mc) q p (v - 1) (Z.pos m2) T B);
      try eassumption; lia. }
  assert (Hhi : Z.pos m2 < v * T + T).
  { eapply (floor_upper n (2 ^ k) (2 ^ D) G (Z.pos mc) q p v (Z.pos m2) T B);
      try eassumption; lia. }
  eexists. split; [reflexivity|]. split.
  - apply Z.div_le_lower_bound; lia.
  - assert (Z.pos m2 / T < v + 1); [|lia].
    apply Z.div_lt_upper_bound; lia.
Qed.

Lemma scale_7_10_near n :
  0 <= n < max_dim ->
  exists z, scale n 7 10 = Ok z /\ 7 * n / 10 - 1 <= z <= 7 * n / 10.
Proof.
  intros Hn. unfold scale.
  replace (Py.literal 7 10) with (S754_finite false 6305039478318694 (-53))
    by (vm_compute; reflexivity).
  apply int_scaled_near with max_dim; [vm_compute; reflexivity|assumption].
Qed.

(** ** The shape of the tie *)

(** X7: for an image height and a face height below [2^31], the knot is a
    trapezoid symmetric about [cx], at least 12 pixels high and no wider at
    the bottom than at the top; the blade is symmetric about [cx] with its tip
    on that axis; and every vertex of the knot, the blade and the highlight
    lies within [tie_bottom_width // 2] of [cx]. *)
Theorem tie_is_centred (w h : Z) (face_box : option FaceBox) (g : TieGeometry) :
  0 <= h < max_dim -> 0 <= tg_face_height g < max_dim ->
  tie_geometry w h face_box = Ok g ->
  let cx := tg_cx g in
  let k := tg_knot g in
  let b := tg_blade g in
  let half := tie_bottom_width (tg_sizing g) / 2 in
  (exists top bottom : Z,
     knot_points k = [ (cx - top, knot_top_y k); (cx + top, knot_top_y k);
                       (cx + bottom, knot_bottom_y k); (cx - bottom, knot_bottom_y k) ]
     /\ 0 <= bottom <= top
     /\ knot_top_y k + 12 <= knot_bottom_y k)
  /\ (exists top drop : Z,
        blade_points b = [ (cx - top, knot_bottom_y k); (cx + top, knot_bottom_y k);
                           (cx + half, tip_y b - drop); (cx, tip_y b);
                           (cx - half, tip_y b - drop) ]
        /\ 0 <= top <= half /\ 0 <= drop)
  /\ Forall (fun pt : Z * Z => cx - half <= pt.1 <= cx + half)
            (knot_points k ++ blade_points b ++ tg_highlight g).
Proof.
  intros Hh Hfh Hg. unfold tie_geometry in Hg. bind_ok Hg. injection Hg as <-.
  cbn [tg_cx tg_knot tg_blade tg_sizing tg_highlight tg_face_height] in *.
  match goal with E : tie_sizing _ _ = Ok _ |- _ =>
    rewrite tie_sizing_value in E by assumption; injection E as <- end.
  set (kw := Z.max 16 (16 * z / 100)) in *.
  set (tbw := Z.max 26 (16 * kw / 10)) in *.
  assert (Hkw : 0 <= kw < max_dim).
  { unfold kw, max_dim in *. Z.div_mod_to_equations. lia. }
  assert (Htbw : 0 <= tbw < max_dim).
  { unfold tbw, kw, max_dim in *. Z.div_mod_to_equations. lia. }
  assert (Hhalf : 0 <= kw / 2 < max_dim).
  { unfold max_dim in *. Z.div_mod_to_equations. lia. }
  match goal with E : knot_shape _ _ _ _ = Ok _ |- _ =>
    unfold knot_shape in E;
    cbn [knot_height knot_width tie_length tie_bottom_width] in E;
    rewrite scale_2_100 in E by assumption; cbn [mbind result_bind] in E;
    destruct (scale_7_10_near (kw / 2) Hhalf) as (r & Hr & Hrb);
    rewrite Hr in E; cbn [mbind result_bind] in E; injection E as <- end.
  match goal with E : blade_shape _ _ _ _ = Ok _ |- _ =>
    unfold blade_shape in E;
    cbn [knot_height knot_width tie_length tie_bottom_width knot_bottom_y] in E;
    rewrite scale_6_10, scale_4_10 in E by assumption;
    cbn [mbind result_bind] in E; injection E as <- end.
  match goal with E : highlight_shape _ _ _ _ = Ok _ |- _ =>
    unfold highlight_shape in E;
    cbn [tie_bottom_width blade_half_top knot_bottom_y tip_y] in E;
    rewrite scale_45_100 in E by assumption;
    cbn [mbind result_bind] in E; injection E as <- end.
  cbn [knot_points knot_top_y knot_bottom_y blade_points tip_y tie_bottom_width].
  assert (Hr0 : 0 <= r <= kw / 2).
  { destruct (scale_7_10 (kw / 2) Hhalf) as (r' & Hr' & Hpos).
    rewrite Hr in Hr'. injection Hr' as <-.
    split; [assumption|]. Z.div_mod_to_equations. lia. }
  assert (Hbt : kw / 2 <= 6 * kw / 10 <= tbw / 2).
  { unfold tbw, kw. Z.div_mod_to_equations. lia. }
  split; [|split].
  - exists (kw / 2), r. split; [reflexivity|]. split; [assumption|]. lia.
  - exists (6 * kw / 10), (4 * tbw / 10). split; [reflexivity|].
    split; [lia|]. Z.div_mod_to_equations. lia.
  - assert (Hwide : 13 <= tbw / 2) by (unfold tbw; Z.div_mod_to_equations; lia).
    cbn [app]. repeat (constructor; [cbn [fst]; lia|]). constructor.
Qed.

Lemma tie_is_centred_witness :
  let face := Some (mkFaceBox 120 90 160 170) in
  exists g : TieGeometry,
    (0 <= 600 < max_dim /\ 0 <= tg_face_height g < max_dim
     /\ tie_geometry 400 600 face = Ok g)
    /\ (exists top bottom : Z,
          knot_points (tg_knot g)
          = [ (tg_cx g - top, knot_top_y (tg_knot g));
              (tg_cx g + top, knot_top_y (tg_knot g));
              (tg_cx g + bottom, knot_bottom_y (tg_knot g));
              (tg_cx g - bottom, knot_bottom_y (tg_knot g)) ]
          /\ 0 <= bottom <= top
          /\ knot_top_y (tg_knot g) + 12 <= knot_bottom_y (tg_knot g))
    /\ (exists top drop : Z,
          blade_points (tg_blade g)
          = [ (tg_cx g - top, knot_bottom_y (tg_knot g));
              (tg_cx g + top, knot_bottom_y (tg_knot g));
              (tg_cx g + tie_bottom_width (tg_sizing g) / 2, tip_y (tg_blade g) - drop);
              (tg_cx g, tip_y (tg_blade g));
              (tg_cx g - tie_bottom_width (tg_sizing g) / 2, tip_y (tg_blade g) - drop) ]
          /\ 0 <= top <= tie_bottom_width (tg_sizing g) / 2 /\ 0 <= drop)
    /\ Forall (fun pt : Z * Z =>
                 tg_cx g - tie_bottom_width (tg_sizing g) / 2 <= pt.1
                 <= tg_cx g + tie_bottom_width (tg_sizing g) / 2)
              (knot_points (tg_knot g) ++ blade_points (tg_blade g) ++ tg_highlight g).
Proof.
  intros face.
  assert (Hg : exists g, tie_geometry 400 600 face = Ok g /\ tg_face_height g = 170).
  { eexists. split; [vm_compute; reflexivity|reflexivity]. }
  destruct Hg as (g & Hg & Hfh). exists g.
  assert (H1 : 0 <= 600 < max_dim) by (unfold max_dim; lia).
  assert (H2 : 0 <= tg_face_height g < max_dim) by (rewrite Hfh; unfold max_dim; lia).
  split; [auto|].
  exact (tie_is_centred 400 600 face g H1 H2 Hg).
Defined.

(** ** [process] as a whole *)




Section Process.
Context `{Pillow} `{OpenCV}.
Variable resize_rgb : Image RGB -> Z * Z -> Image RGB.


End Process.


(** ** Correctly rounded division *)

(** The location [SFdiv] computes from a remainder [R] of a division by [K]. *)
Lemma new_location_flags (K R q : Z) :
  0 < K -> 0 <= R < K ->
  exists r s,
    shr_record_of_loc q (new_location K R) = Build_shr_record q r s
    /\ flags_spec R K r s.
Proof.
  intros HK HR. unfold new_location, new_location_even, new_location_odd.
  destruct (Z.even K) eqn:Hev.
  - destruct (Z.eqb_spec R 0) as [->|Hne].
    + exists false, false. split; reflexivity.
    + destruct (Z.compare_spec (2 * R) K) as [Heq|Hlt|Hgt].
      * exists true, false. split; [reflexivity|]. cbn. lia.
      * exists false, true. split; [reflexivity|]. cbn. lia.
      * exists true, true. split; [reflexivity|]. cbn. lia.
  - assert (Hodd : Z.odd K = true) by (rewrite <- Z.negb_even, Hev; reflexivity).
    apply Z.odd_spec in Hodd. destruct Hodd as [k Hk].
    destruct (Z.eqb_spec R 0) as [->|Hne].
    + exists false, false. split; reflexivity.
    + destruct (Z.compare_spec (2 * R + 1) K) as [Heq|Hlt|Hgt].
      * exists false, true. split; [reflexivity|]. cbn. lia.
      * exists false, true. split; [reflexivity|]. cbn. lia.
      * exists true, true. split; [reflexivity|]. cbn. lia.
Qed.

(** The first shift of [binary_round_aux] on a quotient of 53 or 54 bits whose
    remainder is recorded in the flags. *)
Lemma shr_fexp64_flags (q : positive) (E K R : Z) (l : location) (r s : bool) :
  let d := Z.pos (digits2_pos q) in
  0 < K -> 0 <= R < K ->
  shr_record_of_loc (Z.pos q) l = Build_shr_record (Z.pos q) r s ->
  flags_spec R K r s ->
  53 <= d <= 54 -> -1021 <= d + E ->
  exists r' s',
    shr_fexp 53 1024 (Z.pos q) E l
      = (Build_shr_record ((Z.pos q * K + R) / (2 ^ (d - 53) * K)) r' s', E + (d - 53))
    /\ flags_spec ((Z.pos q * K + R) mod (2 ^ (d - 53) * K)) (2 ^ (d - 53) * K) r' s'.
Proof.
  intros d HK HR Hrec Hfl Hd Hlo. unfold shr_fexp. cbn [Zdigits2]. fold d.
  rewrite fexp64_normal by lia. rewrite Hrec. unfold shr.
  assert (Hdiv : (Z.pos q * K + R) / K = Z.pos q).
  { symmetry. apply Z.div_unique with R; lia. }
  assert (Hmod : (Z.pos q * K + R) mod K = R).
  { symmetry. apply Z.mod_unique with (Z.pos q); lia. }
  destruct (Z.eq_dec d 53) as [Hd53|Hd53].
  - rewrite Hd53. replace (53 + E - 53 - E) with 0 by lia.
    change (2 ^ (53 - 53)) with 1. rewrite Z.mul_1_l, Hdiv, Hmod, Z.add_0_r.
    exists r, s. split; [reflexivity|exact Hfl].
  - assert (Hd54 : d = 54) by lia. rewrite Hd54.
    replace (54 + E - 53 - E) with 1 by lia. cbn [iter_pos].
    rewrite shr_1_nonneg by lia.
    change (2 ^ (54 - 53)) with 2. change (54 - 53) with 1.
    assert (Hdiv2 : (Z.pos q * K + R) / (2 * K) = Z.pos q / 2).
    { rewrite (Z.mul_comm 2 K), <- Z.div_div, Hdiv by lia. reflexivity. }
    assert (Hmod2 : (Z.pos q * K + R) mod (2 * K) = K * (Z.pos q mod 2) + R).
    { rewrite (Z.mul_comm 2 K), Z.rem_mul_r, Hdiv, Hmod by lia. lia. }
    rewrite Hdiv2, Hmod2.
    exists (Z.odd (Z.pos q)), (r || s). split; [reflexivity|].
    rewrite (Zmod_odd (Z.pos q)).
    destruct (Z.odd (Z.pos q)); destruct r, s; unfold flags_spec in *; simpl; lia.
Qed.

(** Rounding to nearest of a quotient of 53 or 54 bits with its remainder:
    the result is within half a unit in the last place of [(q*K + R) / K]. *)
Lemma round_aux64_flags (sx : bool) (q : positive) (E K R : Z) (l : location) (r s : bool) :
  let d := Z.pos (digits2_pos q) in
  0 < K -> 0 <= R < K ->
  shr_record_of_loc (Z.pos q) l = Build_shr_record (Z.pos q) r s ->
  flags_spec R K r s ->
  53 <= d <= 54 -> -1021 <= d + E -> d + E <= 1023 ->
  exists (m2 : positive) (D : Z),
    binary_round_aux 53 1024 sx (Z.pos q) E l = S754_finite sx m2 (E + D)
    /\ d - 53 <= D <= d - 52
    /\ 2 ^ 52 <= Z.pos m2 < 2 ^ 53
    /\ 2 * Z.abs (Z.pos m2 * 2 ^ D * K - (Z.pos q * K + R)) <= 2 ^ D * K.
Proof.
  intros d HK HR Hrec Hfl Hd Hlo Hhi.
  pose proof (digits2_bounds q) as Hq. fold d in Hq.
  destruct (shr_fexp64_flags q E K R l r s HK HR Hrec Hfl) as (r' & s' & Heq & Hfl');
    [fold d; lia..|].
  fold d in Heq, Hfl'. set (sh := d - 53) in *.
  assert (Hsh : 0 < 2 ^ sh) by (apply Z.pow_pos_nonneg; unfold sh; lia).
  set (K' := 2 ^ sh * K) in *.
  assert (HK' : 0 < K') by (apply Z.mul_pos_pos; assumption).
  set (M := Z.pos q * K + R) in *.
  unfold binary_round_aux. rewrite Heq. cbn [shr_m].
  destruct (round_nearest_even_spec M K' (M / K') r' s' HK' eq_refl Hfl') as [Hm1 Herr].
  set (q' := M / K') in *.
  set (m1 := round_nearest_even q' (loc_of_shr_record (Build_shr_record q' r' s'))) in *.
  assert (Hq' : 2 ^ 52 <= q' < 2 ^ 53).
  { replace d with (sh + 53) in Hq by (unfold sh; lia).
    replace (sh + 53 - 1) with (52 + sh) in Hq by lia.
    replace (sh + 53) with (53 + sh) in Hq by lia.
    rewrite !Z.pow_add_r in Hq by (unfold sh; lia).
    assert (H1 : 2 ^ 52 * 2 ^ sh * K <= Z.pos q * K)
      by (apply Z.mul_le_mono_nonneg_r; lia).
    assert (H2 : (Z.pos q + 1) * K <= 2 ^ 53 * 2 ^ sh * K)
      by (apply Z.mul_le_mono_nonneg_r; lia).
    unfold q', K', M. split.
    - apply Z.div_le_lower_bound; lia.
    - apply Z.div_lt_upper_bound; lia. }
  clearbody m1. destruct m1 as [|m1|m1]; [lia| |lia].
  destruct (Z.eq_dec (Z.pos m1) (2 ^ 53)) as [Hcarry|Hcarry].
  - assert (Hdig : Z.pos (digits2_pos m1) = 54).
    { apply digits2_unique. rewrite Hcarry. simpl. lia. }
    unfold shr_fexp. cbn [Zdigits2 shr_record_of_loc]. rewrite Hdig.
    rewrite fexp64_normal by (unfold sh; lia).
    replace (54 + (E + sh) - 53 - (E + sh)) with 1 by lia.
    cbn [shr iter_pos]. rewrite shr_1_nonneg by lia. cbn [shr_m].
    rewrite Hcarry. change (2 ^ 53 / 2) with (Z.pos (2 ^ 52)%positive).
    replace (E + sh + 1 <=? 1024 - 53) with true
      by (symmetry; apply Z.leb_le; unfold sh; lia).
    exists (2 ^ 52)%positive, (sh + 1). rewrite Z.add_assoc.
    split; [reflexivity|]. split; [unfold sh; lia|]. split; [simpl; lia|].
    rewrite Z.pow_add_r by (unfold sh; lia). rewrite Hcarry in Herr.
    change (Z.pos (2 ^ 52)) with (2 ^ 52).
    replace (2 ^ 52 * (2 ^ sh * 2 ^ 1) * K) with (2 ^ 53 * K')
      by (unfold K'; change (2 ^ 53) with (2 ^ 52 * 2 ^ 1); ring).
    replace (2 ^ sh * 2 ^ 1 * K) with (2 * K') by (unfold K'; change (2 ^ 1) with 2; ring).
    lia.
  - assert (Hdig : Z.pos (digits2_pos m1) = 53).
    { apply digits2_unique. simpl (53 - 1). lia. }
    rewrite shr_fexp64_keep by (unfold sh; lia). cbn [shr_m].
    replace (E + sh <=? 1024 - 53) with true
      by (symmetry; apply Z.leb_le; unfold sh; lia).
    exists m1, sh.
    split; [reflexivity|]. split; [unfold sh; lia|]. split; [lia|].
    replace (Z.pos m1 * 2 ^ sh * K) with (Z.pos m1 * K') by (unfold K'; ring).
    fold K'. lia.
Qed.

Lemma div_eucl_pair (a b : Z) : Z.div_eucl a b = (a / b, a mod b).
Proof. unfold Z.div, Z.modulo. by destruct (Z.div_eucl a b). Qed.

(** IEEE division of two positive normal binary64 numbers: the quotient of the
    mantissas, rounded to nearest. *)
Lemma SFdiv64_spec (mx my : positive) (ex ey : Z) :
  Z.pos (digits2_pos mx) = 53 -> Z.pos (digits2_pos my) = 53 ->
  -1020 <= ex - ey <= 1020 ->
  exists (m2 : positive) (D : Z),
    SFdiv 53 1024 (S754_finite false mx ex) (S754_finite false my ey)
      = S754_finite false m2 (ex - ey - 53 + D)
    /\ 0 <= D <= 2
    /\ 2 ^ 52 <= Z.pos m2 < 2 ^ 53
    /\ 2 * Z.abs (Z.pos m2 * 2 ^ D * Z.pos my - Z.pos mx * 2 ^ 53) <= 2 ^ D * Z.pos my.
Proof.
  intros Hx Hy HE. cbn [SFdiv xorb]. unfold SFdiv_core_binary. cbn [Zdigits2].
  rewrite Hx, Hy.
  replace (53 + ex - (53 + ey)) with (ex - ey) by lia.
  rewrite fexp64_normal by lia.
  rewrite Z.min_l by lia.
  replace (ex - ey - (ex - ey - 53)) with 53 by lia.
  rewrite Z.shiftl_mul_pow2 by lia. rewrite div_eucl_pair.
  pose proof (digits2_bounds mx) as Bx. pose proof (digits2_bounds my) as By.
  rewrite Hx in Bx. rewrite Hy in By. simpl (53 - 1) in *.
  set (N := Z.pos mx * 2 ^ 53).
  pose proof (Z.div_mod N (Z.pos my) ltac:(lia)) as Hdm.
  pose proof (Z.mod_pos_bound N (Z.pos my) ltac:(lia)) as HR.
  assert (Hq : 2 ^ 52 <= N / Z.pos my < 2 ^ 54).
  { unfold N. split.
    - apply Z.div_le_lower_bound; lia.
    - apply Z.div_lt_upper_bound; lia. }
  destruct (N / Z.pos my) as [|q|q] eqn:Hqe; [lia| |lia].
  assert (Hd : 53 <= Z.pos (digits2_pos q) <= 54).
  { split; [apply digits2_lower; simpl (53 - 1); lia|apply digits2_upper; lia]. }
  destruct (new_location_flags (Z.pos my) (N mod Z.pos my) (Z.pos q) ltac:(lia) HR)
    as (r & s & Hrec & Hfl).
  destruct (round_aux64_flags false q (ex - ey - 53) (Z.pos my) (N mod Z.pos my)
              (new_location (Z.pos my) (N mod Z.pos my)) r s)
    as (m2 & D & Heq & HD & Hm2 & Herr); try assumption; try lia.
  exists m2, D. rewrite Heq.
  split; [reflexivity|]. split; [lia|]. split; [lia|].
  replace N with (Z.pos q * Z.pos my + N mod Z.pos my) by lia.
  exact Herr.
Qed.

(** ** The proportional dimension of a resize *)

Section ProportionalCore.
Variables b r o c G : Z.
Hypothesis Hb : 0 < b.
Hypothesis Hr : 0 < r.
Hypothesis Ho : 0 < o.
Hypothesis Hbr : b * r < 2 ^ 50.
Hypothesis Hc : 2 ^ 52 <= c.
Hypothesis HG : 0 < G.
Hypothesis Hd : 2 * Z.abs (r * G - o * c) <= o.

(** The ratio [c / G], within half a unit of [r / o], has a scale [G] far
    above [b * o]. *)
Lemma ratio_scale_large : b * o < G.
Proof using Hb Hr Ho Hbr Hc HG Hd.
  destruct (Z.lt_ge_cases (b * o) G) as [|Hle]; [assumption|exfalso].
  assert (E1 : r * G <= r * (b * o)) by (apply Z.mul_le_mono_nonneg_l; lia).
  assert (E2 : b * r * o <= (2 ^ 50 - 1) * o) by (apply Z.mul_le_mono_nonneg_r; lia).
  assert (E3 : 2 ^ 52 * o <= c * o) by (apply Z.mul_le_mono_nonneg_r; lia).
  replace (r * (b * o)) with (b * r * o) in E1 by ring.
  replace (c * o) with (o * c) in E3 by ring.
  lia.
Qed.

(** The rounded product [b * (c / G)] keeps bits below the binary point. *)
Lemma product_below_point (K P m3 : Z) :
  0 < K -> 0 < P -> 2 ^ 52 <= m3 ->
  2 * Z.abs (m3 * P - b * K * c) <= P ->
  P < K * G.
Proof using Hb Hr Ho Hbr Hc HG Hd.
  intros HK HP Hm3 Herr. pose proof ratio_scale_large as HGo.
  assert (E1 : 2 ^ 52 * P <= m3 * P) by (apply Z.mul_le_mono_nonneg_r; lia).
  assert (E2 : (2 ^ 53 - 1) * P <= 2 * (b * K * c)) by lia.
  assert (E3 : 2 * (b * (o * c)) <= 2 * (b * (r * G)) + b * o).
  { assert (E : b * (2 * (o * c)) <= b * (2 * (r * G) + o))
      by (apply Z.mul_le_mono_nonneg_l; lia).
    replace (b * (2 * (o * c))) with (2 * (b * (o * c))) in E by ring.
    replace (b * (2 * (r * G) + o)) with (2 * (b * (r * G)) + b * o) in E by ring.
    exact E. }
  assert (E4 : b * r * G <= (2 ^ 50 - 1) * G) by (apply Z.mul_le_mono_nonneg_r; lia).
  assert (E5 : 1 * (b * c) <= o * (b * c)).
  { apply Z.mul_le_mono_nonneg_r; [|lia]. apply Z.mul_nonneg_nonneg; lia. }
  assert (E6 : 2 * (b * c) < (2 ^ 53 - 1) * G).
  { replace (o * (b * c)) with (b * (o * c)) in E5 by ring.
    replace (b * (r * G)) with (b * r * G) in E3 by ring. lia. }
  assert (E7 : K * (2 * (b * c)) < K * ((2 ^ 53 - 1) * G))
    by (apply Z.mul_lt_mono_pos_l; lia).
  assert (E8 : (2 ^ 53 - 1) * P < (2 ^ 53 - 1) * (K * G)).
  { replace ((2 ^ 53 - 1) * (K * G)) with (K * ((2 ^ 53 - 1) * G)) by ring.
    replace (2 * (b * K * c)) with (K * (2 * (b * c))) in E2 by ring. lia. }
  apply Z.mul_lt_mono_pos_l in E8; lia.
Qed.

(** A mantissa within half a unit of the exact product lies at or above
    [u * T] whenever [b * r] exceeds [o * u] by a margin [e] that outweighs the
    error of the ratio. *)
Lemma truncation_lower (K P T m3 u e : Z) :
  0 < K -> 0 < P -> 0 < T -> T * P = K * G ->
  2 * Z.abs (m3 * P - b * K * c) <= P ->
  0 <= e -> b * o <= 2 * (e * G) ->
  o * u + e <= b * r ->
  u * T <= m3.
Proof using Hb Hr Ho Hbr Hc HG Hd.
  intros HK HP HT HTP Herr He Hmargin Hu.
  destruct (Z.le_gt_cases (u * T) m3) as [|Hlt]; [assumption|exfalso].
  assert (A1 : (m3 + 1) * P <= u * (K * G)).
  { rewrite <- HTP, Z.mul_assoc. apply Z.mul_le_mono_nonneg_r; lia. }
  assert (A2 : K * (b * c) < K * (u * G)).
  { replace (K * (b * c)) with (b * K * c) by ring.
    replace (K * (u * G)) with (u * (K * G)) by ring. lia. }
  apply Z.mul_lt_mono_pos_l in A2; [|assumption].
  assert (A3 : o * (b * c) < o * (u * G)) by (apply Z.mul_lt_mono_pos_l; assumption).
  assert (A4 : o * u * G <= (b * r - e) * G) by (apply Z.mul_le_mono_nonneg_r; lia).
  assert (A5 : b * (2 * (r * G) - o) <= b * (2 * (o * c)))
    by (apply Z.mul_le_mono_nonneg_l; lia).
  replace (o * (u * G)) with (o * u * G) in A3 by ring.
  replace ((b * r - e) * G) with (b * (r * G) - e * G) in A4 by ring.
  replace (b * (2 * (r * G) - o)) with (2 * (b * (r * G)) - b * o) in A5 by ring.
  replace (b * (2 * (o * c))) with (2 * (o * (b * c))) in A5 by ring.
  lia.
Qed.

(** The same mantissa stays below [(v + 1) * T] when [b * r < o * (v + 1)]. *)
Lemma truncation_upper (K P T m3 v : Z) :
  0 < K -> 0 < P -> 0 < T -> T * P = K * G ->
  2 ^ 52 <= m3 ->
  2 * Z.abs (m3 * P - b * K * c) <= P ->
  b * r < o * v + o ->
  m3 < (v + 1) * T.
Proof using Hb Hr Ho Hbr Hc HG Hd.
  intros HK HP HT HTP Hm3 Herr Hv. pose proof ratio_scale_large as HGo.
  destruct (Z.le_gt_cases ((v + 1) * T) m3) as [Hge|]; [exfalso|assumption].
  assert (B1 : (v + 1) * (K * G) <= m3 * P).
  { rewrite <- HTP, Z.mul_assoc. apply Z.mul_le_mono_nonneg_r; lia. }
  assert (B2 : 2 ^ 52 * P <= m3 * P) by (apply Z.mul_le_mono_nonneg_r; lia).
  assert (B3 : (2 ^ 53 - 1) * ((v + 1) * (K * G)) <= 2 ^ 53 * (b * K * c)) by lia.
  assert (B4 : K * ((2 ^ 53 - 1) * ((v + 1) * G)) <= K * (2 ^ 53 * (b * c))).
  { replace (K * ((2 ^ 53 - 1) * ((v + 1) * G)))
      with ((2 ^ 53 - 1) * ((v + 1) * (K * G))) by ring.
    replace (K * (2 ^ 53 * (b * c))) with (2 ^ 53 * (b * K * c)) by ring.
    exact B3. }
  apply Z.mul_le_mono_pos_l in B4; [|assumption].
  assert (B5 : o * ((2 ^ 53 - 1) * ((v + 1) * G)) <= o * (2 ^ 53 * (b * c)))
    by (apply Z.mul_le_mono_nonneg_l; lia).
  assert (B6 : (b * r + 1) * G <= (o * v + o) * G)
    by (apply Z.mul_le_mono_nonneg_r; lia).
  assert (B7 : b * (2 * (o * c)) <= b * (2 * (r * G) + o))
    by (apply Z.mul_le_mono_nonneg_l; lia).
  assert (B8 : b * r * G <= (2 ^ 50 - 1) * G) by (apply Z.mul_le_mono_nonneg_r; lia).
  replace (o * ((2 ^ 53 - 1) * ((v + 1) * G)))
    with ((2 ^ 53 - 1) * ((o * v + o) * G)) in B5 by ring.
  replace (o * (2 ^ 53 * (b * c))) with (2 ^ 52 * (b * (2 * (o * c)))) in B5 by ring.
  replace ((b * r + 1) * G) with (b * r * G + G) in B6 by ring.
  replace (b * (2 * (r * G) + o)) with (2 * (b * r * G) + b * o) in B7 by ring.
  lia.
Qed.

End ProportionalCore.

(** [int(b * (r / o))] is the floor of [b * r / o], or one less; it is the
    floor whenever [o] does not divide [b * r]. *)
Lemma proportional_near (b r o : Z) :
  0 < b -> 0 < r -> b * r < 2 ^ 50 -> 0 < o < 2 ^ 53 ->
  exists z,
    proportional b (Some r) o = Ok z
    /\ b * r / o - 1 <= z <= b * r / o
    /\ ((b * r) mod o <> 0 -> z = b * r / o).
Proof.
  intros Hb Hr Hbr Ho.
  assert (Hr50 : r < 2 ^ 50).
  { assert (1 * r <= b * r) by (apply Z.mul_le_mono_nonneg_r; lia). lia. }
  assert (Hb50 : b < 2 ^ 50).
  { assert (b * 1 <= b * r) by (apply Z.mul_le_mono_nonneg_l; lia). lia. }
  unfold proportional, Py.truediv, Py.int_mul_float, Py.float_of_int.
  replace (o =? 0) with false by (symmetry; apply Z.eqb_neq; lia).
  destruct (of_Z_normal r) as (mr & kr & -> & Hkr & Hmr & Hdr); [lia|].
  destruct (of_Z_normal o) as (mo & ko & -> & Hko & Hmo & Hdo); [lia|].
  destruct (of_Z_normal b) as (mb & kb & -> & Hkb & Hmb & Hdb); [lia|].
  cbn [mbind result_bind]. unfold Py.div, Py.mul, Py.prec, Py.emax.
  destruct (SFdiv64_spec mr mo (- kr) (- ko) Hdr Hdo ltac:(lia))
    as (m2 & D2 & -> & HD2 & Hm2 & Herr2).
  assert (Hd2 : Z.pos (digits2_pos m2) = 53)
    by (apply digits2_unique; simpl (53 - 1); exact Hm2).
  set (e2 := - kr - - ko - 53 + D2).
  destruct (SFmul64_spec mb m2 (- kb) e2 Hdb Hd2 ltac:(unfold e2; lia))
    as (m3 & D3 & -> & HD3 & Hm3 & Herr3).
  cbn [Py.int cond_Zopp].
  (* the scale of the ratio *)
  pose proof (digits2_bounds mr) as Bmr. rewrite Hdr in Bmr. simpl (53 - 1) in Bmr.
  assert (Hkr3 : 3 <= kr).
  { destruct (Z.le_gt_cases 3 kr) as [|Hlt]; [assumption|exfalso].
    assert (2 ^ kr <= 2 ^ 2) by (apply Z.pow_le_mono_r; lia).
    assert (r * 2 ^ kr <= r * 2 ^ 2) by (apply Z.mul_le_mono_nonneg_l; lia).
    lia. }
  set (G := 2 ^ (- e2)).
  assert (HG : 0 < G) by (apply Z.pow_pos_nonneg; unfold e2; lia).
  set (Q := 2 ^ (ko + D2)).
  assert (HQ : 0 < Q) by (apply Z.pow_pos_nonneg; lia).
  assert (HGQ : G * Q = 2 ^ kr * 2 ^ 53).
  { unfold G, Q, e2. rewrite <- !Z.pow_add_r by lia. f_equal. lia. }
  assert (Hd : 2 * Z.abs (r * G - o * Z.pos m2) <= o).
  { assert (E : 2 * (Z.abs (r * G - o * Z.pos m2) * Q) <= o * Q).
    { replace (Z.abs (r * G - o * Z.pos m2) * Q)
        with (Z.abs (Z.pos m2 * 2 ^ D2 * Z.pos mo - Z.pos mr * 2 ^ 53)).
      - replace (o * Q) with (2 ^ D2 * Z.pos mo); [exact Herr2|].
        rewrite Hmo. unfold Q. rewrite Z.pow_add_r by lia. ring.
      - rewrite <- (Z.abs_eq Q) by lia. rewrite <- Z.abs_mul, <- Z.abs_opp.
        f_equal. rewrite Hmo, Hmr.
        replace ((r * G - o * Z.pos m2) * Q) with (r * (G * Q) - o * Z.pos m2 * Q) by ring.
        rewrite HGQ. unfold Q. rewrite Z.pow_add_r by lia. ring. }
    assert (E' : (2 * Z.abs (r * G - o * Z.pos m2)) * Q <= o * Q) by lia.
    apply Z.mul_le_mono_pos_r in E'; assumption. }
  assert (HK : 0 < 2 ^ kb) by (apply Z.pow_pos_nonneg; lia).
  assert (HP : 0 < 2 ^ D3) by (apply Z.pow_pos_nonneg; lia).
  rewrite Hmb in Herr3.
  assert (HPKG : 2 ^ D3 < 2 ^ kb * G).
  { apply (product_below_point b r o (Z.pos m2) G) with (m3 := Z.pos m3); try lia. }
  assert (HDlt : D3 < kb - e2).
  { apply (Z.pow_lt_mono_r_iff 2); [lia|unfold e2; lia|].
    unfold G in HPKG. rewrite <- Z.pow_add_r in HPKG by (unfold e2; lia).
    replace (kb - e2) with (kb + - e2) by lia. exact HPKG. }
  replace (0 <=? - kb + e2 + D3) with false by (symmetry; apply Z.leb_gt; lia).
  set (T := 2 ^ (- (- kb + e2 + D3))).
  assert (HT : 0 < T) by (apply Z.pow_pos_nonneg; lia).
  assert (HTP : T * 2 ^ D3 = 2 ^ kb * G).
  { unfold T, G. rewrite <- !Z.pow_add_r by (unfold e2 in *; lia). f_equal. lia. }
  set (v := b * r / o).
  assert (Hv : o * v <= b * r < o * v + o).
  { pose proof (Z.div_mod (b * r) o ltac:(lia)).
    pose proof (Z.mod_pos_bound (b * r) o ltac:(lia)). unfold v. lia. }
  pose proof (ratio_scale_large b r o (Z.pos m2) G Hb Hr ltac:(lia) Hbr ltac:(lia) HG Hd)
    as HGo.
  assert (Hbo : b * 1 <= b * o) by (apply Z.mul_le_mono_nonneg_l; lia).
  assert (Hlo : (v - 1) * T <= Z.pos m3).
  { apply (truncation_lower b r o (Z.pos m2) G) with (K := 2 ^ kb) (P := 2 ^ D3) (e := o);
      try lia.
    assert (o * (b * 1) <= o * G) by (apply Z.mul_le_mono_nonneg_l; lia). lia. }
  assert (Hhi : Z.pos m3 < (v + 1) * T).
  { apply (truncation_upper b r o (Z.pos m2) G) with (K := 2 ^ kb) (P := 2 ^ D3);
      try lia. }
  eexists. split; [reflexivity|]. split; [split|].
  - apply Z.div_le_lower_bound; lia.
  - assert (Z.pos m3 / T < v + 1) by (apply Z.div_lt_upper_bound; lia). lia.
  - intros Hmod.
    assert (Hex : v * T <= Z.pos m3).
    { apply (truncation_lower b r o (Z.pos m2) G) with (K := 2 ^ kb) (P := 2 ^ D3) (e := 1);
        try lia.
      pose proof (Z.div_mod (b * r) o ltac:(lia)).
      pose proof (Z.mod_pos_bound (b * r) o ltac:(lia)). unfold v. lia. }
    symmetry. apply Z.div_unique with (Z.pos m3 - v * T); lia.
Qed.

(** X9: with only one of [--width] and [--height] given, as [n] below [2^19],
    on an image whose sides are below [2^31], [process] keeps [n] and computes
    the other side as the floor of the proportional size or one pixel less; it
    is the floor whenever the division of [side * n] by the other side leaves
    a remainder. *)
Theorem resize_target_within_one_pixel (base_w base_h n : Z) :
  0 < base_w < max_dim -> 0 < base_h < max_dim -> 0 < n < 2 ^ 19 ->
  (exists target_h,
     resize_target base_w base_h (Some n) None = Ok (Some (n, target_h))
     /\ base_h * n / base_w - 1 <= target_h <= base_h * n / base_w
     /\ ((base_h * n) mod base_w <> 0 -> target_h = base_h * n / base_w))
  /\ (exists target_w,
        resize_target base_w base_h None (Some n) = Ok (Some (target_w, n))
        /\ base_w * n / base_h - 1 <= target_w <= base_w * n / base_h
        /\ ((base_w * n) mod base_h <> 0 -> target_w = base_w * n / base_h)).
Proof.
  unfold max_dim. intros Hw Hh Hn.
  assert (Hhn : base_h * n < 2 ^ 50).
  { change (2 ^ 50) with (2 ^ 31 * 2 ^ 19). apply Z.mul_lt_mono_nonneg; lia. }
  assert (Hwn : base_w * n < 2 ^ 50).
  { change (2 ^ 50) with (2 ^ 31 * 2 ^ 19). apply Z.mul_lt_mono_nonneg; lia. }
  assert (Htruthy : Py.truthy (Some n) = true).
  { unfold Py.truthy. destruct (Z.eqb_spec n 0); [lia|reflexivity]. }
  unfold resize_target. rewrite Htruthy. cbn [Py.truthy orb default].
  split.
  - destruct (proportional_near base_h n base_w) as (z & -> & Hz & Hex); try lia.
    exists z. split; [reflexivity|]. split; assumption.
  - destruct (proportional_near base_w n base_h) as (z & -> & Hz & Hex); try lia.
    exists z. split; [reflexivity|]. split; assumption.
Qed.

Lemma resize_target_within_one_pixel_witness :
  (0 < 4900 < max_dim /\ 0 < 4900 < max_dim /\ 0 < 100 < 2 ^ 19)
  /\ (exists target_h,
        resize_target 4900 4900 (Some 100) None = Ok (Some (100, target_h))
        /\ 4900 * 100 / 4900 - 1 <= target_h <= 4900 * 100 / 4900
        /\ ((4900 * 100) mod 4900 <> 0 -> target_h = 4900 * 100 / 4900))
  /\ (exists target_w,
        resize_target 4900 4900 None (Some 100) = Ok (Some (target_w, 100))
        /\ 4900 * 100 / 4900 - 1 <= target_w <= 4900 * 100 / 4900
        /\ ((4900 * 100) mod 4900 <> 0 -> target_w = 4900 * 100 / 4900)).
Proof.
  assert (H1 : 0 < 4900 < max_dim) by (unfold max_dim; lia).
  assert (H2 : 0 < 100 < 2 ^ 19) by lia.
  split; [exact (conj H1 (conj H1 H2))|].
  exact (resize_target_within_one_pixel 4900 4900 100 H1 H1 H2).
Defined.

Example proportional_one_short : proportional 4900 (Some 100) 4900 = Ok 99.
Proof. vm_compute. reflexivity. Qed.

Example proportional_exact : proportional 3000 (Some 500) 4000 = Ok 375.
Proof. vm_compute. reflexivity. Qed.

(** ** The anchor under a detected face *)

(** The product [n * c] for a constant [c] at or below [p / q]: its mantissa
    lies between the floor of [p * n / q] and half a unit above [p * n / q]. *)
Lemma mul_scaled_bounds (mc : positive) (ec p q B n : Z) :
  scale_exact_cond mc ec p q B = true ->
  q * Z.pos mc <= p * 2 ^ (- ec) ->
  0 < n < B ->
  exists (m : positive) (E : Z),
    Py.int_mul_float n (S754_finite false mc ec) = Ok (S754_finite false m E)
    /\ ec <= E < 0
    /\ 2 ^ 52 <= Z.pos m < 2 ^ 53
    /\ p * n / q * 2 ^ (- E) <= Z.pos m
    /\ 2 * (q * Z.pos m) <= 2 * (p * n * 2 ^ (- E)) + q.
Proof.
  unfold scale_exact_cond. intros Hc Hbelow Hn.
  repeat (apply andb_prop in Hc; destruct Hc as [Hc ?]).
  repeat match goal with
         | H : (_ =? _) = true |- _ => apply Z.eqb_eq in H
         | H : (_ <=? _) = true |- _ => apply Z.leb_le in H
         | H : (_ <? _) = true |- _ => apply Z.ltb_lt in H
         end.
  match goal with H : (_ || _) = true |- _ => rename H into Hlow end.
  match goal with H : _ < (2 ^ 53 - 1) * _ |- _ => rename H into Hup end.
  assert (Hlow' : p * 2 ^ (- ec) - q * Z.pos mc <= 0
                  \/ (2 ^ 54 - 1) * (p * 2 ^ (- ec) - q * Z.pos mc) < q * Z.pos mc).
  { apply orb_prop in Hlow. destruct Hlow as [Hl|Hl];
      [left; apply Z.leb_le in Hl|right; apply Z.ltb_lt in Hl]; exact Hl. }
  clear Hlow. set (G := 2 ^ (- ec)) in *.
  unfold Py.int_mul_float, Py.float_of_int.
  destruct (of_Z_normal n) as (mh & k & -> & Hk & Hmh & Hdh); [lia|].
  cbn [mbind result_bind]. unfold Py.mul, Py.prec, Py.emax.
  destruct (SFmul64_spec mh mc (- k) ec) as (m2 & D & -> & HD & Hm2 & Herr);
    [assumption|assumption|lia|].
  assert (HG : 0 < G) by (apply Z.pow_pos_nonneg; lia).
  assert (HK : 0 < 2 ^ k) by (apply Z.pow_pos_nonneg; lia).
  assert (HP : 0 < 2 ^ D) by (apply Z.pow_pos_nonneg; lia).
  rewrite Hmh in Herr.
  assert (Herr' : 2 * (Z.pos m2 * 2 ^ D) - 2 ^ D <= 2 * (n * 2 ^ k * Z.pos mc)
                  <= 2 * (Z.pos m2 * 2 ^ D) + 2 ^ D) by lia.
  clear Herr. destruct Herr' as [Herr1 Herr2].
  assert (HPKG : 2 ^ D < 2 ^ k * G).
  { eapply (shift_below_point n (2 ^ k) (2 ^ D) G (Z.pos mc) q B _ (Z.pos m2));
      try eassumption; lia. }
  assert (HDlt : D < k - ec).
  { apply (Z.pow_lt_mono_r_iff 2); [lia|lia|].
    unfold G in HPKG. rewrite <- Z.pow_add_r in HPKG by lia.
    replace (k - ec) with (k + - ec) by lia. exact HPKG. }
  set (E := - k + ec + D).
  set (T := 2 ^ (- E)).
  assert (HT : 0 < T) by (apply Z.pow_pos_nonneg; unfold E; lia).
  assert (HTP : T * 2 ^ D = 2 ^ k * G).
  { unfold T, G, E. rewrite <- !Z.pow_add_r by lia. f_equal. lia. }
  set (v := p * n / q).
  assert (Hv : q * v <= p * n < q * v + q).
  { pose proof (Z.div_mod (p * n) q ltac:(lia)).
    pose proof (Z.mod_pos_bound (p * n) q ltac:(lia)). unfold v. lia. }
  assert (Hlo : v * T <= Z.pos m2).
  { eapply (floor_lower n (2 ^ k) (2 ^ D) G (Z.pos mc) q p v (Z.pos m2) T);
      try eassumption; lia. }
  exists m2, E. split; [reflexivity|]. split; [unfold E; lia|].
  split; [assumption|]. split; [assumption|].
  assert (U1 : q * (2 * (Z.pos m2 * 2 ^ D) - 2 ^ D) <= q * (2 * (n * 2 ^ k * Z.pos mc)))
    by (apply Z.mul_le_mono_nonneg_l; lia).
  assert (U2 : n * 2 ^ k * (q * Z.pos mc) <= n * 2 ^ k * (p * G)).
  { apply Z.mul_le_mono_nonneg_l; [|assumption]. apply Z.mul_nonneg_nonneg; lia. }
  assert (U3 : (2 * (q * Z.pos m2) - q) * 2 ^ D <= (2 * (p * n * T)) * 2 ^ D).
  { replace ((2 * (q * Z.pos m2) - q) * 2 ^ D)
      with (q * (2 * (Z.pos m2 * 2 ^ D) - 2 ^ D)) by ring.
    replace (2 * (p * n * T) * 2 ^ D) with (2 * (p * n * (T * 2 ^ D))) by ring.
    rewrite HTP.
    replace (2 * (p * n * (2 ^ k * G))) with (2 * (n * 2 ^ k * (p * G))) by ring.
    replace (q * (2 * (n * 2 ^ k * Z.pos mc))) with (2 * (n * 2 ^ k * (q * Z.pos mc)))
      in U1 by ring.
    lia. }
  apply Z.mul_le_mono_pos_r in U3; [|assumption]. lia.
Qed.

(** The sum of two positive normal binary64 numbers, rounded to nearest. *)
Lemma SFadd64_spec (mx my : positive) (ex ey : Z) :
  Z.pos (digits2_pos mx) = 53 -> Z.pos (digits2_pos my) = 53 ->
  -900 <= ex <= 900 -> -900 <= ey <= 900 ->
  let ez := Z.min ex ey in
  exists (m : positive) (D : Z),
    Py.add (S754_finite false mx ex) (S754_finite false my ey)
      = S754_finite false m (ez + D)
    /\ 0 <= D
    /\ 2 ^ 52 <= Z.pos m < 2 ^ 53
    /\ 2 * Z.abs (Z.pos m * 2 ^ D
                  - (Z.pos mx * 2 ^ (ex - ez) + Z.pos my * 2 ^ (ey - ez))) <= 2 ^ D.
Proof.
  intros Hx Hy Hex Hey ez. unfold Py.add, Py.prec, Py.emax. cbn [SFadd cond_Zopp].
  fold ez.
  pose proof (shl_align_fst mx ex ez ltac:(unfold ez; lia)) as Ha.
  pose proof (shl_align_fst my ey ez ltac:(unfold ez; lia)) as Hb.
  set (a := fst (shl_align mx ex ez)) in *. set (b := fst (shl_align my ey ez)) in *.
  change (Z.pos a + Z.pos b) with (Z.pos (a + b)).
  cbn [binary_normalize]. unfold binary_round.
  pose proof (digits2_bounds mx) as Bx. pose proof (digits2_bounds my) as By.
  rewrite Hx in Bx. rewrite Hy in By. simpl (53 - 1) in *.
  assert (Hpx : 1 <= 2 ^ (ex - ez)) by (apply (Z.pow_le_mono_r 2 0); unfold ez; lia).
  assert (Hpy : 1 <= 2 ^ (ey - ez)) by (apply (Z.pow_le_mono_r 2 0); unfold ez; lia).
  set (top := Z.max ex ey - ez).
  assert (Hqx : 2 ^ (ex - ez) <= 2 ^ top) by (apply Z.pow_le_mono_r; unfold top, ez; lia).
  assert (Hqy : 2 ^ (ey - ez) <= 2 ^ top) by (apply Z.pow_le_mono_r; unfold top, ez; lia).
  assert (Hlo : 53 <= Z.pos (digits2_pos (a + b))).
  { apply digits2_lower. rewrite Pos2Z.inj_add. simpl (53 - 1). nia. }
  assert (Hhi : Z.pos (digits2_pos (a + b)) <= 54 + top).
  { apply digits2_upper; [unfold top, ez; lia|].
    rewrite Pos2Z.inj_add, Z.pow_add_r by (unfold top, ez; lia).
    change (2 ^ 54) with (2 * 2 ^ 53). nia. }
  set (d := Z.pos (digits2_pos (a + b))) in *.
  rewrite fexp64_normal by (unfold ez; lia).
  destruct (round_aux64 false (a + b) ez) as (m & D & Heq & HD & Hm & Herr);
    [fold d; unfold top, ez in *; lia..|].
  fold d in HD. rewrite Pos2Z.inj_add, Ha, Hb in Herr.
  exists m, D. split; [|split; [lia|split; assumption]].
  unfold shl_align.
  destruct (d + ez - 53 - ez) as [|s|s] eqn:Hs; [exact Heq|exact Heq|lia].
Qed.

(** [int(float(n))] is [n]. *)
Lemma int_of_Z (n : Z) : 0 <= n < 2 ^ 53 -> Py.int (Py.of_Z n) = Ok n.
Proof.
  intros Hn. destruct (Z.eq_dec n 0) as [->|Hne]; [reflexivity|].
  destruct (of_Z_normal n) as (m & k & -> & Hk & Hm & _); [lia|].
  cbn [Py.int cond_Zopp]. rewrite Hm.
  destruct (0 <=? - k) eqn:He.
  - apply Z.leb_le in He. replace k with 0 by lia. simpl (2 ^ (- 0)). f_equal. lia.
  - rewrite Z.opp_involutive, Z.div_mul; [reflexivity|].
    apply Z.pow_nonzero; lia.
Qed.

(** Integer core: a sum whose exact value lies between [V] and [V + 191/200]
    rounds to a number that truncates to [V]. *)
Lemma sum_truncates (V Z0 M m P U : Z) :
  0 <= V < 2 ^ 32 -> 0 < Z0 -> 0 < P -> 0 < U -> U * P = Z0 ->
  2 ^ 52 <= m ->
  2 * Z.abs (m * P - M) <= P ->
  V * Z0 <= M -> 200 * M <= 200 * (V * Z0) + 191 * Z0 ->
  V * U <= m < (V + 1) * U.
Proof.
  intros HV HZ HP HU HUP Hm Herr Hlo Hhi.
  assert (E0 : V * Z0 <= (2 ^ 32 - 1) * Z0) by (apply Z.mul_le_mono_nonneg_r; lia).
  assert (E1 : 2 ^ 52 * P <= m * P) by (apply Z.mul_le_mono_nonneg_r; lia).
  split.
  - destruct (Z.le_gt_cases (V * U) m) as [|Hlt]; [assumption|exfalso].
    assert (A1 : (m + 1) * P <= V * U * P) by (apply Z.mul_le_mono_nonneg_r; lia).
    replace (V * U * P) with (V * (U * P)) in A1 by ring. rewrite HUP in A1. lia.
  - destruct (Z.le_gt_cases ((V + 1) * U) m) as [Hge|]; [exfalso|assumption].
    assert (B1 : (V + 1) * U * P <= m * P) by (apply Z.mul_le_mono_nonneg_r; lia).
    replace ((V + 1) * U * P) with ((V + 1) * (U * P)) in B1 by ring.
    rewrite HUP in B1. lia.
Qed.

Lemma sum_below_point (V Z0 M m P : Z) :
  0 <= V < 2 ^ 32 -> 0 < Z0 -> 0 < P ->
  2 ^ 52 <= m ->
  2 * Z.abs (m * P - M) <= P ->
  200 * M <= 200 * (V * Z0) + 191 * Z0 ->
  P < Z0.
Proof.
  intros HV HZ HP Hm Herr Hhi.
  assert (E0 : V * Z0 <= (2 ^ 32 - 1) * Z0) by (apply Z.mul_le_mono_nonneg_r; lia).
  assert (E1 : 2 ^ 52 * P <= m * P) by (apply Z.mul_le_mono_nonneg_r; lia).
  lia.
Qed.


(** X10: for a face box whose [y] and [height] lie in [0, 2^31),
    [center_bottom] raises nothing and returns exactly
    [(x + width // 2, y + floor(95 * height / 100))]: neither the product by
    [0.95] nor the sum with [y] loses the integer part. *)
Theorem center_bottom_value (fb : FaceBox) :
  0 <= fb_y fb < max_dim -> 0 <= fb_height fb < max_dim ->
  center_bottom fb
  = Ok (fb_x fb + fb_width fb / 2, fb_y fb + 95 * fb_height fb / 100).
Proof.
  unfold max_dim. intros Hy Hh. unfold center_bottom.
  set (y := fb_y fb) in *. set (h := fb_height fb) in *.
  assert (Hlit : Py.literal 95 100 = S754_finite false 8556839292003942 (-53))
    by (vm_compute; reflexivity).
  rewrite Hlit.
  destruct (Z.eq_dec h 0) as [->|Hh0].
  { (* no height: the product is 0.0 *)
    change (Py.int_mul_float 0 (S754_finite false 8556839292003942 (-53)))
      with (Ok f64_zero).
    cbn [mbind result_bind]. unfold Py.int_add_float, Py.float_of_int.
    change (95 * 0 / 100) with 0. rewrite Z.add_0_r.
    destruct (Z.eq_dec y 0) as [->|Hy0]; [reflexivity|].
    pose proof (int_of_Z y ltac:(lia)) as Hint.
    destruct (of_Z_normal y) as (my & ky & Heq & _); [lia|].
    rewrite Heq in Hint |- *. cbn [mbind result_bind].
    change (Py.add (S754_finite false my (- ky)) f64_zero)
      with (S754_finite false my (- ky)).
    rewrite Hint. reflexivity. }
  destruct (mul_scaled_bounds 8556839292003942 (-53) 95 100 (2 ^ 31) h)
    as (ms & Es & -> & HEs & Hms & Hslo & Hshi);
    [vm_compute; reflexivity|vm_compute; discriminate|lia|].
  cbn [mbind result_bind].
  set (F := 95 * h / 100) in *.
  assert (HF : 100 * F <= 95 * h <= 100 * F + 95).
  { unfold F. pose proof (Z.div_mod (95 * h) 100 ltac:(lia)).
    pose proof (Z.mod_pos_bound (95 * h) 100 ltac:(lia)). lia. }
  set (T := 2 ^ (- Es)) in *.
  assert (HT : 0 < T) by (apply Z.pow_pos_nonneg; lia).
  assert (HhT : 95 * h * T <= (100 * F + 95) * T)
    by (apply Z.mul_le_mono_nonneg_r; lia).
  assert (HFT : F * T <= 2 ^ 31 * T) by (apply Z.mul_le_mono_nonneg_r; lia).
  assert (HT100 : 100 <= T) by lia.
  unfold Py.int_add_float, Py.float_of_int.
  destruct (Z.eq_dec y 0) as [->|Hy0].
  { (* the box starts at the top row: the sum is the product *)
    change (Py.of_Z 0) with (S754_zero false). cbn [mbind result_bind].
    change (Py.add (S754_zero false) (S754_finite false ms Es))
      with (S754_finite false ms Es).
    cbn [Py.int cond_Zopp].
    replace (0 <=? Es) with false by (symmetry; apply Z.leb_gt; lia).
    fold T. rewrite Z.add_0_l.
    replace (Z.pos ms / T) with F
      by (apply Z.div_unique with (Z.pos ms - F * T); lia).
    reflexivity. }
  destruct (of_Z_normal y) as (my & ky & -> & Hky & Hmy & Hdy); [lia|].
  cbn [mbind result_bind].
  assert (Hds : Z.pos (digits2_pos ms) = 53)
    by (apply digits2_unique; simpl (53 - 1); exact Hms).
  destruct (SFadd64_spec my ms (- ky) Es Hdy Hds ltac:(lia) ltac:(lia))
    as (m & D & -> & HD & Hm & Herr).
  set (ez := Z.min (- ky) Es) in *.
  cbn [Py.int cond_Zopp].
  set (Z0 := 2 ^ (- ez)).
  assert (HZ0 : 0 < Z0) by (apply Z.pow_pos_nonneg; unfold ez; lia).
  set (Bq := 2 ^ (Es - ez)) in *.
  assert (HBq : 0 < Bq) by (apply Z.pow_pos_nonneg; unfold ez; lia).
  assert (HBT : Bq * T = Z0).
  { unfold Bq, T, Z0. rewrite <- Z.pow_add_r by (unfold ez; lia). f_equal. lia. }
  assert (HyZ : Z.pos my * 2 ^ (- ky - ez) = y * Z0).
  { rewrite Hmy. unfold Z0. rewrite <- Z.mul_assoc, <- Z.pow_add_r by (unfold ez; lia).
    f_equal. f_equal. lia. }
  rewrite HyZ in Herr.
  set (M := y * Z0 + Z.pos ms * Bq) in *.
  assert (HMlo : (y + F) * Z0 <= M).
  { assert (F * T * Bq <= Z.pos ms * Bq) by (apply Z.mul_le_mono_nonneg_r; lia).
    replace (F * T * Bq) with (F * (Bq * T)) in * by ring. rewrite HBT in *.
    unfold M. lia. }
  assert (HMhi : 200 * M <= 200 * ((y + F) * Z0) + 191 * Z0).
  { assert (E1 : 2 * (100 * Z.pos ms) * Bq <= (2 * ((100 * F + 95) * T) + 100) * Bq)
      by (apply Z.mul_le_mono_nonneg_r; lia).
    assert (E2 : 100 * Bq <= T * Bq) by (apply Z.mul_le_mono_nonneg_r; lia).
    replace ((2 * ((100 * F + 95) * T) + 100) * Bq)
      with (2 * ((100 * F + 95) * (Bq * T)) + 100 * Bq) in E1 by ring.
    replace (T * Bq) with (Bq * T) in E2 by ring.
    rewrite HBT in E1, E2. unfold M. lia. }
  assert (HP : 0 < 2 ^ D) by (apply Z.pow_pos_nonneg; lia).
  assert (HPZ : 2 ^ D < Z0).
  { apply (sum_below_point (y + F) Z0 M (Z.pos m) (2 ^ D)); try assumption; lia. }
  assert (HDlt : D < - ez).
  { apply (Z.pow_lt_mono_r_iff 2); [lia|unfold ez; lia|exact HPZ]. }
  replace (0 <=? ez + D) with false by (symmetry; apply Z.leb_gt; lia).
  set (U := 2 ^ (- (ez + D))).
  assert (HU : 0 < U) by (apply Z.pow_pos_nonneg; lia).
  assert (HUP : U * 2 ^ D = Z0).
  { unfold U, Z0. rewrite <- Z.pow_add_r by lia. f_equal. lia. }
  destruct (sum_truncates (y + F) Z0 M (Z.pos m) (2 ^ D) U) as [Hlo Hhi];
    try assumption; try lia.
  fold U. replace (Z.pos m / U) with (y + F)
    by (apply Z.div_unique with (Z.pos m - (y + F) * U); lia).
  reflexivity.
Qed.

Lemma center_bottom_value_witness :
  let fb := mkFaceBox 120 80 200 260 in
  (0 <= fb_y fb < max_dim /\ 0 <= fb_height fb < max_dim)
  /\ center_bottom fb
     = Ok (fb_x fb + fb_width fb / 2, fb_y fb + 95 * fb_height fb / 100).
Proof.
  intros fb.
  assert (H1 : 0 <= fb_y fb < max_dim) by (cbn; unfold max_dim; lia).
  assert (H2 : 0 <= fb_height fb < max_dim) by (cbn; unfold max_dim; lia).
  split; [exact (conj H1 H2)|].
  exact (center_bottom_value fb H1 H2).
Defined.

Example center_bottom_runs : center_bottom (mkFaceBox 120 80 200 260) = Ok (220, 327).
Proof. vm_compute. reflexivity. Qed.

(** ** Keying a backdrop that is all red, or not red at all *)

Lemma red_mask_pixel (p : Z * Z * Z) :
  Z.lor (let '(h, s, v) := p in
         if (0 <=? h) && (h <=? 10) && (60 <=? s) && (s <=? 255)
            && (40 <=? v) && (v <=? 255) then 255 else 0)
        (let '(h, s, v) := p in
         if (170 <=? h) && (h <=? 180) && (60 <=? s) && (s <=? 255)
            && (40 <=? v) && (v <=? 255) then 255 else 0)
  = if red_keyed p then 255 else 0.
Proof.
  destruct p as [[h s] v]. unfold red_keyed.
  destruct (0 <=? h), (h <=? 10), (170 <=? h), (h <=? 180),
    (60 <=? s), (s <=? 255), (40 <=? v), (v <=? 255); reflexivity.
Qed.

(** Lines 77-79: the combined mask is 255 exactly on the keyed pixels. *)
Lemma red_mask_spec (hsv : list (list (Z * Z * Z))) :
  bitwise_or (inRange hsv (0, 60, 40) (10, 255, 255))
             (inRange hsv (170, 60, 40) (180, 255, 255))
  = map (map (fun p => if red_keyed p then 255 else 0)) hsv.
Proof.
  unfold bitwise_or, inRange.
  induction hsv as [|row hsv IH]; [reflexivity|].
  cbn [map zip_with]. rewrite IH. f_equal.
  induction row as [|p row IHrow]; [reflexivity|].
  cbn [map zip_with]. rewrite IHrow. f_equal. apply red_mask_pixel.
Qed.

Lemma map_map_const {A B : Type} (f : A -> B) (b : B) (a : list (list A)) :
  Forall (Forall (fun x => f x = b)) a -> map (map f) a = map (map (fun _ => b)) a.
Proof.
  intros Ha. induction Ha as [|row a Hrow _ IH]; [reflexivity|].
  cbn. rewrite IH. f_equal.
  induction Hrow as [|x row Hx _ IHrow]; [reflexivity|].
  cbn. by rewrite IHrow, Hx.
Qed.

Lemma uniform_const {A : Type} (v : Z) (a : list (list A)) :
  uniform v (map (map (fun _ => v)) a).
Proof.
  unfold uniform. induction a as [|row a IH]; constructor; [|exact IH].
  induction row; constructor; [reflexivity|assumption].
Qed.

Lemma dstack_row_const {A : Type} (rgb : list RGB) (l : list A) (a : Z) :
  List.length rgb = List.length l ->
  dstack_row rgb (map (fun _ => a) l) = Ok (map (fun p => with_alpha p a) rgb).
Proof.
  revert l. induction rgb as [|p rgb IH]; intros [|x l] Hlen; try discriminate.
  - reflexivity.
  - cbn [map dstack_row]. rewrite IH by (by injection Hlen). reflexivity.
Qed.

Lemma dstack_const {A : Type} (rgb : list (list RGB)) (m : list (list A)) (a : Z) :
  same_shape rgb m ->
  dstack rgb (map (map (fun _ => a)) m)
  = Ok (map (map (fun p => with_alpha p a)) rgb).
Proof.
  unfold same_shape. revert m.
  induction rgb as [|r rgb IH]; intros [|x m] Hshape; try discriminate.
  - reflexivity.
  - cbn in Hshape. injection Hshape as Hlen Hrest.
    cbn [map dstack]. rewrite dstack_row_const by exact Hlen.
    cbn [mbind result_bind]. rewrite IH by exact Hrest. reflexivity.
Qed.

Section KeyingUniform.
Context `{OpenCV}.

(** X11: when the morphology, dilation and blur leave a mask of one value as
    it is, and the HSV conversion keeps the shape of the image, a photo in
    which every pixel is keyed as red backdrop comes out with alpha 0
    everywhere, and a photo in which no pixel is keyed comes out with alpha
    255 everywhere; the colours are the input's in both cases. *)
Theorem remove_background_all_or_nothing (image : Image RGB) (keyed : bool) :
  let hsv := cvtColor_BGR2HSV (cvtColor_RGB2BGR (im_rows image)) in
  same_shape (im_rows image) hsv ->
  (forall v m op k it, uniform v m -> morphologyEx m op k it = m) ->
  (forall v m k it, uniform v m -> dilate m k it = m) ->
  (forall v m ks sigma, uniform v m -> GaussianBlur m ks sigma = m) ->
  Forall (Forall (fun p => red_keyed p = keyed)) hsv ->
  remove_background_keep_subject image
  = Ok (mkImage (im_size image)
          (map (map (fun p => with_alpha p (if keyed then 0 else 255))) (im_rows image))).
Proof.
  intros hsv Hshape Hmorph Hdilate Hblur Hkeyed.
  unfold remove_background_keep_subject, subject_mask. fold hsv.
  rewrite red_mask_spec.
  rewrite (map_map_const (fun p => if red_keyed p then 255 else 0)
             (if keyed then 255 else 0) hsv).
  2:{ eapply Forall_impl; [exact Hkeyed|]. intros row Hrow.
      eapply Forall_impl; [exact Hrow|]. cbn. by intros p ->. }
  set (red := if keyed then 255 else 0).
  set (mask := map (map (fun _ : Z * Z * Z => red)) hsv).
  assert (Hmask : uniform red mask) by apply uniform_const.
  rewrite (Hmorph red mask), (Hmorph red mask), (Hdilate red mask) by exact Hmask.
  unfold mask.
  assert (Hnot : bitwise_not (map (map (fun _ : Z * Z * Z => red)) hsv)
                 = map (map (fun _ => Z.lxor red 255)) hsv).
  { unfold bitwise_not. rewrite <- list_fmap_compose.
    apply list_fmap_ext. intros _ row _. cbn. by rewrite <- list_fmap_compose. }
  rewrite Hnot, (Hblur (Z.lxor red 255)) by apply uniform_const.
  assert (Halpha : map (map alpha_of_mask) (map (map (fun _ : Z * Z * Z => Z.lxor red 255)) hsv)
                   = map (map (fun _ => if keyed then 0 else 255)) hsv).
  { rewrite <- list_fmap_compose.
    apply list_fmap_ext. intros _ row _. cbn. rewrite <- list_fmap_compose.
    apply list_fmap_ext. intros _ p _. cbn. unfold red.
    destruct keyed; vm_compute; reflexivity. }
  rewrite Halpha, (dstack_const (im_rows image) hsv) by exact Hshape.
  reflexivity.
Qed.

End KeyingUniform.

Lemma remove_background_all_or_nothing_witness :
  let cv := simple_opencv [] in
  let image := mkImage (2, 1) [[mkRGB 40 90 160; mkRGB 10 20 30]] in
  let hsv := @cvtColor_BGR2HSV cv (cvtColor_RGB2BGR (im_rows image)) in
  (same_shape (im_rows image) hsv
   /\ (forall v m op k it, uniform v m -> @morphologyEx cv m op k it = m)
   /\ (forall v m k it, uniform v m -> @dilate cv m k it = m)
   /\ (forall v m ks sigma, uniform v m -> @GaussianBlur cv m ks sigma = m)
   /\ Forall (Forall (fun p => red_keyed p = false)) hsv)
  /\ @remove_background_keep_subject cv image
     = Ok (mkImage (im_size image)
             (map (map (fun p => with_alpha p 255)) (im_rows image))).
Proof.
  intros cv image hsv.
  assert (H1 : same_shape (im_rows image) hsv) by reflexivity.
  assert (H2 : forall v m op k it, uniform v m -> @morphologyEx cv m op k it = m)
    by reflexivity.
  assert (H3 : forall v m k it, uniform v m -> @dilate cv m k it = m) by reflexivity.
  assert (H4 : forall v m ks sigma, uniform v m -> @GaussianBlur cv m ks sigma = m)
    by reflexivity.
  assert (H5 : Forall (Forall (fun p => red_keyed p = false)) hsv)
    by (repeat constructor).
  split; [exact (conj H1 (conj H2 (conj H3 (conj H4 H5))))|].
  exact (@remove_background_all_or_nothing cv image false H1 H2 H3 H4 H5).
Defined.

Example remove_background_red_backdrop :
  @remove_background_keep_subject (simple_opencv [])
    (mkImage (2, 1) [[mkRGB 200 200 5; mkRGB 180 90 175]])
  = Ok (mkImage (2, 1) [[mkRGBA 200 200 5 0; mkRGBA 180 90 175 0]]).
Proof. vm_compute. reflexivity. Qed.
